(** * RippleEffect: the wave simulation and the image composite

    A shallow embedding of the two fragment shaders of the component
    ([fluidUpdateShader], [imageFragmentShader]) and of the per-frame
    driver ([useFrame]) with its pointer handlers.

    Numbers.  GLSL [float] and JavaScript numbers are idealised as the
    real numbers [R]: every statement below is about the arithmetic the
    code writes down, not about rounding.

    Textures.  A render target is a grid of texels indexed by [Z * Z],
    of which the cells [0 <= i, j < RESOLUTION] are the stored ones.  A
    [sampler2D] is what a shader sees of a texture: a function from
    texture coordinates to colours. *)

From Stdlib Require Import Reals Lra Lia ZArith List Bool Psatz QArith_base.
Import ListNotations.

Open Scope R_scope.

(** ** GLSL vectors and built-in functions *)

Module GLSL.

Record vec2 : Type := Vec2 { x2 : R; y2 : R }.
Record vec3 : Type := Vec3 { x3 : R; y3 : R; z3 : R }.
Record vec4 : Type := Vec4 { r4 : R; g4 : R; b4 : R; a4 : R }.

Definition add2 (a b : vec2) : vec2 := Vec2 (x2 a + x2 b) (y2 a + y2 b).
Definition sub2 (a b : vec2) : vec2 := Vec2 (x2 a - x2 b) (y2 a - y2 b).
Definition scale2 (a : vec2) (k : R) : vec2 := Vec2 (x2 a * k) (y2 a * k).
Definition add3 (a b : vec3) : vec3 :=
  Vec3 (x3 a + x3 b) (y3 a + y3 b) (z3 a + z3 b).
Definition splat3 (k : R) : vec3 := Vec3 k k k.
Definition xy (n : vec3) : vec2 := Vec2 (x3 n) (y3 n).

(** [mix(x, y, a) = x * (1 - a) + y * a]. *)
Definition mix (x y a : R) : R := x * (1 - a) + y * a.
Definition mix2 (p q : vec2) (a : R) : vec2 :=
  Vec2 (mix (x2 p) (x2 q) a) (mix (y2 p) (y2 q) a).

(** [clamp(x, lo, hi) = min(max(x, lo), hi)]. *)
Definition clamp (x lo hi : R) : R := Rmin (Rmax x lo) hi.
Definition clamp2 (p : vec2) (lo hi : R) : vec2 :=
  Vec2 (clamp (x2 p) lo hi) (clamp (y2 p) lo hi).

(** [smoothstep(e0, e1, x)]: Hermite interpolation of the clamped ratio.
    The simulation calls it with [e0 > e1]; the formula is the one every
    implementation evaluates. *)
Definition smoothstep (e0 e1 x : R) : R :=
  let t := clamp ((x - e0) / (e1 - e0)) 0 1 in
  t * t * (3 - 2 * t).

(** [pow(x, y)] for [x >= 0]: [0] at [x = 0], [exp (y * ln x)] above.
    GLSL leaves [x < 0], and [x = 0] with [y <= 0], undefined. *)
Definition pow (x y : R) : R :=
  if Req_dec_T x 0 then 0 else Rpower x y.

Definition length2 (p : vec2) : R := sqrt (x2 p * x2 p + y2 p * y2 p).
Definition distance (p q : vec2) : R := length2 (sub2 p q).
Definition length3 (n : vec3) : R :=
  sqrt (x3 n * x3 n + y3 n * y3 n + z3 n * z3 n).
Definition normalize (n : vec3) : vec3 :=
  Vec3 (x3 n / length3 n) (y3 n / length3 n) (z3 n / length3 n).
Definition dot (a b : vec3) : R := x3 a * x3 b + y3 a * y3 b + z3 a * z3 b.

(** What a shader sees of a bound texture. *)
Definition sampler2D : Type := vec2 -> vec4.
Definition texture2D (s : sampler2D) (uv : vec2) : vec4 := s uv.

End GLSL.
Import GLSL.

(** ** The simulation shader *)

Module FluidShader.

Record FluidUniforms : Type := {
  uPrevState : sampler2D;
  uCurrentState : sampler2D;
  uResolution : vec2;
  uViscosity : R;
  uDecay : R;
  uMouse : vec2;
  uPrevMouse : vec2;
  uRadius : R;
  uIntensity : R;
  uMouseVelocity : R
}.

(** Lines 38-53 of the shader: the four neighbour samples, the wave
    equation, the viscosity blend and the decay. *)
Definition waveUpdate (u : FluidUniforms) (vUv : vec2) : R :=
  let texel := Vec2 (1 / x2 (uResolution u)) (1 / y2 (uResolution u)) in
  let current := r4 (texture2D (uCurrentState u) vUv) in
  let prev := r4 (texture2D (uPrevState u) vUv) in
  let left :=
    r4 (texture2D (uCurrentState u) (add2 vUv (Vec2 (- x2 texel) 0))) in
  let right :=
    r4 (texture2D (uCurrentState u) (add2 vUv (Vec2 (x2 texel) 0))) in
  let top :=
    r4 (texture2D (uCurrentState u) (add2 vUv (Vec2 0 (y2 texel)))) in
  let bottom :=
    r4 (texture2D (uCurrentState u) (add2 vUv (Vec2 0 (- y2 texel)))) in
  let neighbors := (left + right + top + bottom) * 0.25 in
  let wave := neighbors * 2 - prev in
  let wave := mix current wave (uViscosity u) in
  wave * uDecay u.

(** The trail loop [for (i = 0; i < 8; i++)], one iteration per element
    of the list of loop indices. *)
Definition trailLoop (u : FluidUniforms) (vUv : vec2) (ripple0 : R) : R :=
  fold_left
    (fun ripple i =>
       let t := i / 8 in
       let trailPos := mix2 (uPrevMouse u) (uMouse u) t in
       let d := distance vUv trailPos in
       let trailRipple := smoothstep (uRadius u * 0.7) 0 d in
       Rmax ripple (pow trailRipple 2))
    [0; 1; 2; 3; 4; 5; 6; 7] ripple0.

(** Lines 57-75: the body of the [if], up to [finalRipple]. *)
Definition finalRipple (u : FluidUniforms) (vUv : vec2) : R :=
  let mousePos := uMouse u in
  let dist := distance vUv mousePos in
  let ripple := smoothstep (uRadius u) 0 dist in
  let ripple := pow ripple 2 in
  let ripple := trailLoop u vUv ripple in
  ripple * uIntensity u * Rmin (uMouseVelocity u * 10) 1.

(** The scalar written to all three colour channels. *)
Definition fluidWave (u : FluidUniforms) (vUv : vec2) : R :=
  let wave := waveUpdate u vUv in
  if Rgt_dec (uMouseVelocity u) 0.0001
  then wave + finalRipple u vUv
  else wave.

Definition fluidUpdateShader (u : FluidUniforms) (vUv : vec2) : vec4 :=
  let wave := fluidWave u vUv in
  Vec4 wave wave wave 1.

End FluidShader.

(** ** The image shader *)

Module ImageShader.

Record ImageUniforms : Type := {
  uTexture : sampler2D;
  uDisplacement : sampler2D;
  uDistortionStrength : R;
  uAberration : R;
  uLightIntensity : R;
  uSpecularPower : R;
  uResolution : vec2;
  uImageAspect : R;
  uPlaneAspect : R
}.

(** Cover fit - maintains aspect ratio while filling the plane. *)
Definition coverRatio (imageAspect planeAspect : R) : vec2 :=
  Vec2 (Rmin (planeAspect / imageAspect) 1)
       (Rmin (imageAspect / planeAspect) 1).

Definition coverUv (uv : vec2) (imageAspect planeAspect : R) : vec2 :=
  let ratio := coverRatio imageAspect planeAspect in
  Vec2 (x2 uv * x2 ratio + (1 - x2 ratio) * 0.5)
       (y2 uv * y2 ratio + (1 - y2 ratio) * 0.5).

(** The vector [calculateNormal] builds before normalising it. *)
Definition rawNormal (u : ImageUniforms) (uv : vec2) (strength : R) : vec3 :=
  let texel := Vec2 (1 / x2 (uResolution u)) (1 / y2 (uResolution u)) in
  let left :=
    r4 (texture2D (uDisplacement u) (add2 uv (Vec2 (- x2 texel) 0))) in
  let right :=
    r4 (texture2D (uDisplacement u) (add2 uv (Vec2 (x2 texel) 0))) in
  let top :=
    r4 (texture2D (uDisplacement u) (add2 uv (Vec2 0 (y2 texel)))) in
  let bottom :=
    r4 (texture2D (uDisplacement u) (add2 uv (Vec2 0 (- y2 texel)))) in
  Vec3 ((left - right) * strength) ((bottom - top) * strength) 1.

Definition calculateNormal (u : ImageUniforms) (uv : vec2) (strength : R)
  : vec3 :=
  normalize (rawNormal u uv strength).

(** The local variables of [main], each as a function of the uniforms
    and the two varyings, in the order the shader computes them. *)
Section Main.
Variable u : ImageUniforms.
Variables vUv vScreenUv : vec2.

Definition coveredUv : vec2 := coverUv vUv (uImageAspect u) (uPlaneAspect u).
Definition displacement : R := r4 (texture2D (uDisplacement u) vScreenUv).
Definition normal : vec3 := calculateNormal u vScreenUv 50.
Definition normalDeviation : R := length2 (xy normal).
Definition refraction : vec2 := scale2 (xy normal) (uDistortionStrength u).
Definition distortedUv : vec2 :=
  clamp2 (add2 coveredUv refraction) 0.001 0.999.
Definition aberrationAmount : R :=
  uAberration u * (Rabs (x3 normal) + Rabs (y3 normal)).

(** Where the three channel samples are taken. *)
Definition coordR : vec2 := add2 distortedUv (Vec2 aberrationAmount 0).
Definition coordG : vec2 := distortedUv.
Definition coordB : vec2 := sub2 distortedUv (Vec2 aberrationAmount 0).

Definition colorR : vec4 := texture2D (uTexture u) coordR.
Definition colorG : vec4 := texture2D (uTexture u) coordG.
Definition colorB : vec4 := texture2D (uTexture u) coordB.

(** [vec3(colorR.r, colorG.g, colorB.b)], before any lighting. *)
Definition sampledColor : vec3 := Vec3 (r4 colorR) (g4 colorG) (b4 colorB).

Definition rippleMask : R := smoothstep 0.01 0.1 normalDeviation.

Definition lightDir : vec3 := normalize (Vec3 0.5 0.5 1).
Definition viewDir : vec3 := Vec3 0 0 1.
Definition halfDir : vec3 := normalize (add3 lightDir viewDir).

Definition specular : R :=
  let specular := pow (Rmax (dot normal halfDir) 0) (uSpecularPower u) in
  specular * (uLightIntensity u * rippleMask).

Definition fresnel : R := pow (1 - Rmax (dot normal viewDir) 0) 2.

(** The fresnel contribution added to the colour. *)
Definition fresnelTerm : R := fresnel * uLightIntensity u * 0.1 * rippleMask.

Definition main : vec4 :=
  let color := sampledColor in
  let color := add3 color (splat3 specular) in
  let color := add3 color (splat3 fresnelTerm) in
  Vec4 (x3 color) (y3 color) (z3 color) 1.
End Main.

End ImageShader.

(** ** Render targets *)

Module RenderTarget.

(** Resolution for fluid simulation. *)
Definition RESOLUTION : Z := 512.

(** The texels of a render target; cell [(i, j)] with
    [0 <= i, j < RESOLUTION] is column [i], row [j]. *)
Definition Texture : Type := Z -> Z -> vec4.

Definition inGrid (i j : Z) : Prop :=
  (0 <= i < RESOLUTION)%Z /\ (0 <= j < RESOLUTION)%Z.

(** Modelled from the spec: the edge policy of a neighbour read is clamp,
    an out-of-bounds read reuses the edge value (the wrap mode of the
    render targets is not set in the source, the library default
    applies). *)
Definition clampIndex (i : Z) : Z := Z.max 0 (Z.min i (RESOLUTION - 1)).

Definition mix4 (p q : vec4) (a : R) : vec4 :=
  Vec4 (mix (r4 p) (r4 q) a) (mix (g4 p) (g4 q) a)
       (mix (b4 p) (b4 q) a) (mix (a4 p) (a4 q) a).

(** [minFilter] and [magFilter] are [THREE.LinearFilter]: a sample is
    the bilinear blend of the four texels around the coordinate, texel
    [(i, j)] having its centre at [((i + 0.5) / RESOLUTION,
    (j + 0.5) / RESOLUTION)]. *)
Definition linearSample (t : Texture) : sampler2D :=
  fun uv =>
    let u := x2 uv * IZR RESOLUTION - 0.5 in
    let v := y2 uv * IZR RESOLUTION - 0.5 in
    let i0 := Int_part u in
    let j0 := Int_part v in
    let a := frac_part u in
    let b := frac_part v in
    let t00 := t (clampIndex i0) (clampIndex j0) in
    let t10 := t (clampIndex (i0 + 1)) (clampIndex j0) in
    let t01 := t (clampIndex i0) (clampIndex (j0 + 1)) in
    let t11 := t (clampIndex (i0 + 1)) (clampIndex (j0 + 1)) in
    mix4 (mix4 t00 t10 a) (mix4 t01 t11 a) b.

(** The value of [vUv] at the fragment of cell [(i, j)] when the
    fullscreen quad is drawn into a render target. *)
Definition cellCentre (i j : Z) : vec2 :=
  Vec2 ((IZR i + 0.5) / IZR RESOLUTION) ((IZR j + 0.5) / IZR RESOLUTION).

(** [gl.render(offscreenScene, offscreenCamera)] into a render target:
    every cell receives the fragment shader's output at its centre. *)
Definition render (shader : vec2 -> vec4) : Texture :=
  fun i j => shader (cellCentre i j).

(** Modelled from the spec: on initialization the three scalar fields
    are cleared to zero ([gl.clearColor()] with the renderer's clear
    colour, which the source leaves at its default). *)
Definition cleared : Texture := fun _ _ => Vec4 0 0 0 0.

(** The height stored in a cell: the red channel. *)
Definition heightAt (t : Texture) (i j : Z) : R := r4 (t i j).

End RenderTarget.
Import RenderTarget.

(** ** The component: refs, pointer handlers and the frame loop *)

Module Component.

Import FluidShader.

(** The [settings] prop, re-read on every frame. *)
Record Settings : Type := {
  intensity : R;
  scale : R;
  viscosity : R;
  decay : R;
  distortionStrength : R;
  aberration : R;
  lightIntensity : R;
  specularPower : R
}.

(** [renderTargets]: an array of exactly three render targets. *)
Record Targets : Type := { rt0 : Texture; rt1 : Texture; rt2 : Texture }.

(** [renderTargets[k]]; [None] is JavaScript's [undefined]. *)
Definition rtGet (rts : Targets) (k : Z) : option Texture :=
  match k with
  | 0%Z => Some (rt0 rts)
  | 1%Z => Some (rt1 rts)
  | 2%Z => Some (rt2 rts)
  | _ => None
  end.

(** The effect of rendering [t] into [renderTargets[k]]. *)
Definition rtWrite (rts : Targets) (k : Z) (t : Texture) : Targets :=
  match k with
  | 0%Z => {| rt0 := t; rt1 := rt1 rts; rt2 := rt2 rts |}
  | 1%Z => {| rt0 := rt0 rts; rt1 := t; rt2 := rt2 rts |}
  | 2%Z => {| rt0 := rt0 rts; rt1 := rt1 rts; rt2 := t |}
  | _ => rts
  end.

(** The mutable cells of the component ([useRef]) and the contents of
    the render targets.  [quadMeshRef] records whether the ref holds a
    mesh. *)
Record State : Type := {
  mouseRef : vec2;
  prevMouseRef : vec2;
  mouseVelocityRef : R;
  isPointerInsideRef : bool;
  pingPongRef : Z;
  renderTargets : Targets;
  quadMeshRef : bool
}.

(** The refs as [useRef] initialises them, over render targets of
    unspecified content. *)
Definition initialState (rts : Targets) : State :=
  {| mouseRef := Vec2 0.5 0.5;
     prevMouseRef := Vec2 0.5 0.5;
     mouseVelocityRef := 0;
     isPointerInsideRef := false;
     pingPongRef := 0;
     renderTargets := rts;
     quadMeshRef := false |}.

(** Clear render targets on mount. *)
Definition clearRenderTargets (s : State) : State :=
  {| mouseRef := mouseRef s;
     prevMouseRef := prevMouseRef s;
     mouseVelocityRef := mouseVelocityRef s;
     isPointerInsideRef := isPointerInsideRef s;
     pingPongRef := pingPongRef s;
     renderTargets := {| rt0 := cleared; rt1 := cleared; rt2 := cleared |};
     quadMeshRef := quadMeshRef s |}.

(** Setup quad mesh. *)
Definition setupQuadMesh (s : State) : State :=
  {| mouseRef := mouseRef s;
     prevMouseRef := prevMouseRef s;
     mouseVelocityRef := mouseVelocityRef s;
     isPointerInsideRef := isPointerInsideRef s;
     pingPongRef := pingPongRef s;
     renderTargets := renderTargets s;
     quadMeshRef := true |}.

(** The state once the mount effects have run. *)
Definition mounted (rts : Targets) : State :=
  setupQuadMesh (clearRenderTargets (initialState rts)).

(** *** Pointer tracking *)

Record Rect : Type := { left : R; top : R; width : R; height : R }.

Definition Rgeb (a b : R) : bool := if Rge_dec a b then true else false.
Definition Rleb (a b : R) : bool := if Rle_dec a b then true else false.

Definition updatePointer (rect : Rect) (clientX clientY : R) (s : State)
  : State :=
  let x := (clientX - left rect) / width rect in
  let y := 1 - (clientY - top rect) / height rect in
  let inside := Rgeb x 0 && Rleb x 1 && Rgeb y 0 && Rleb y 1 in
  {| mouseRef := if inside then Vec2 x y else mouseRef s;
     prevMouseRef := prevMouseRef s;
     mouseVelocityRef := mouseVelocityRef s;
     isPointerInsideRef := inside;
     pingPongRef := pingPongRef s;
     renderTargets := renderTargets s;
     quadMeshRef := quadMeshRef s |}.

Definition handlePointerLeave (s : State) : State :=
  {| mouseRef := mouseRef s;
     prevMouseRef := mouseRef s;
     mouseVelocityRef := mouseVelocityRef s;
     isPointerInsideRef := false;
     pingPongRef := pingPongRef s;
     renderTargets := renderTargets s;
     quadMeshRef := quadMeshRef s |}.

(** *** The frame loop *)

(** Lines 397-400: the velocity sampled in a frame. *)
Definition frameVelocity (s : State) : R :=
  let dx := x2 (mouseRef s) - x2 (prevMouseRef s) in
  let dy := y2 (mouseRef s) - y2 (prevMouseRef s) in
  let rawVelocity := sqrt (dx * dx + dy * dy) in
  if isPointerInsideRef s then rawVelocity else 0.

(** Current ping-pong indices; [%] is JavaScript's remainder. *)
Definition currentIndex (c : Z) : Z := c.
Definition prevIndex (c : Z) : Z := Z.rem (c + 2) 3.
Definition nextIndex (c : Z) : Z := Z.rem (c + 1) 3.

(** Lines 404-426: the uniforms of the simulation material as the frame
    sets them, given the two textures it binds. *)
Definition fluidUniforms (settings : Settings) (s : State)
    (prevTex currentTex : Texture) : FluidUniforms :=
  {| uPrevState := linearSample prevTex;
     uCurrentState := linearSample currentTex;
     uResolution := Vec2 (IZR RESOLUTION) (IZR RESOLUTION);
     uViscosity := viscosity settings;
     uDecay := decay settings;
     uMouse := Vec2 (x2 (mouseRef s)) (y2 (mouseRef s));
     uPrevMouse := Vec2 (x2 (prevMouseRef s)) (y2 (prevMouseRef s));
     uRadius := scale settings;
     uIntensity := intensity settings;
     uMouseVelocity := frameVelocity s |}.

(** The uniforms of the frame, when both texture lookups succeed. *)
Definition frameUniforms (settings : Settings) (s : State)
  : option FluidUniforms :=
  let current := pingPongRef s in
  match rtGet (renderTargets s) (prevIndex current),
        rtGet (renderTargets s) (currentIndex current) with
  | Some p, Some c => Some (fluidUniforms settings s p c)
  | _, _ => None
  end.

(** One call of the [useFrame] callback.  [None] is the [TypeError] of
    reading [.texture] from a missing render target. *)
Definition useFrame (settings : Settings) (s : State) : option State :=
  if negb (quadMeshRef s) then Some s
  else
    match frameUniforms settings s with
    | Some u =>
        let next := nextIndex (pingPongRef s) in
        Some {| mouseRef := mouseRef s;
                prevMouseRef := mouseRef s;
                mouseVelocityRef := frameVelocity s;
                isPointerInsideRef := isPointerInsideRef s;
                pingPongRef := next;
                renderTargets :=
                  rtWrite (renderTargets s) next
                          (render (fluidUpdateShader u));
                quadMeshRef := quadMeshRef s |}
    | None => None
    end.

(** [n] consecutive frames with no pointer event in between. *)
Fixpoint frames (settings : Settings) (n : nat) (s : State) : option State :=
  match n with
  | O => Some s
  | S k =>
      match useFrame settings s with
      | Some s' => frames settings k s'
      | None => None
      end
  end.

(** Lines 435-448: the uniforms of an image material after a frame;
    [texture] and [imageAspect] belong to the image, [displacement] is
    [renderTargets[next]] and the plane has the size of the viewport. *)
Definition imageUniforms (settings : Settings) (viewport : vec2)
    (texture : sampler2D) (imageAspect : R) (displacement : Texture)
  : ImageShader.ImageUniforms :=
  {| ImageShader.uTexture := texture;
     ImageShader.uDisplacement := linearSample displacement;
     ImageShader.uDistortionStrength := distortionStrength settings;
     ImageShader.uAberration := aberration settings;
     ImageShader.uLightIntensity := lightIntensity settings;
     ImageShader.uSpecularPower := specularPower settings;
     ImageShader.uResolution := Vec2 (IZR RESOLUTION) (IZR RESOLUTION);
     ImageShader.uImageAspect := imageAspect;
     ImageShader.uPlaneAspect := x2 viewport / y2 viewport |}.

End Component.
Import Component.

(** * Specification vocabulary *)

(** The update of one cell as the specification words it, from the
    values of the cell and of its four neighbours. *)
Definition dampedWave (visc dec current prev l r t b : R) : R :=
  let neighborAvg := 0.25 * (l + r + t + b) in
  let wave := 2 * neighborAvg - prev in
  let wave := mix current wave visc in
  wave * dec.

(** [dampedWave] at cell [(i, j)] of the fields [p] (prev) and [c]
    (current), neighbours beyond the edge reusing the edge value. *)
Definition cellWave (visc dec : R) (p c : Texture) (i j : Z) : R :=
  dampedWave visc dec (heightAt c i j) (heightAt p i j)
    (heightAt c (clampIndex (i - 1)) j) (heightAt c (clampIndex (i + 1)) j)
    (heightAt c i (clampIndex (j + 1))) (heightAt c i (clampIndex (j - 1))).

(** Every stored cell of [t] has height [v]. *)
Definition uniform (t : Texture) (v : R) : Prop :=
  forall i j, inGrid i j -> heightAt t i j = v.

(** All three render targets are uniformly [v]. *)
Definition allUniform (rts : Targets) (v : R) : Prop :=
  uniform (rt0 rts) v /\ uniform (rt1 rts) v /\ uniform (rt2 rts) v.

(** The targets in the [prev] and [current] roles of a state. *)
Definition roles (s : State) (p c : Texture) : Prop :=
  rtGet (renderTargets s) (prevIndex (pingPongRef s)) = Some p /\
  rtGet (renderTargets s) (pingPongRef s) = Some c.

(** The value a cell takes when the whole neighbourhood is at [b] and
    the previous field at [a]. *)
Definition uniformWave (visc dec a b : R) : R :=
  dampedWave visc dec b a b b b b.

(** The heights of the [prev] and [current] fields after [n] frames
    without injection, from uniform heights [a] and [b]. *)
Fixpoint uniformSeq (visc dec a b : R) (n : nat) : R * R :=
  match n with
  | O => (a, b)
  | S k => uniformSeq visc dec b (uniformWave visc dec a b) k
  end.

(** The central differences of [calculateNormal] vanish at [uv]. *)
Definition flatAt (u : ImageShader.ImageUniforms) (uv : vec2) : Prop :=
  let texel :=
    Vec2 (1 / x2 (ImageShader.uResolution u))
         (1 / y2 (ImageShader.uResolution u)) in
  r4 (texture2D (ImageShader.uDisplacement u) (add2 uv (Vec2 (- x2 texel) 0)))
  = r4 (texture2D (ImageShader.uDisplacement u) (add2 uv (Vec2 (x2 texel) 0)))
  /\
  r4 (texture2D (ImageShader.uDisplacement u) (add2 uv (Vec2 0 (- y2 texel))))
  = r4 (texture2D (ImageShader.uDisplacement u) (add2 uv (Vec2 0 (y2 texel)))).

(** * Sample inputs *)

(** The settings of the page that mounts the component. *)
Definition demoSettings : Settings :=
  {| intensity := 0.06; scale := 0.05; viscosity := 0.89; decay := 0.98;
     distortionStrength := 0.05; aberration := 0.01;
     lightIntensity := 0.04; specularPower := 8.1 |}.

(** Settings in the documented domain: viscosity 1, decay 0.1. *)
Definition stiffSettings : Settings :=
  {| intensity := 0.06; scale := 0.05; viscosity := 1; decay := 0.1;
     distortionStrength := 0.05; aberration := 0.01;
     lightIntensity := 0.04; specularPower := 8.1 |}.

(** Settings with real characteristic roots: viscosity 0.5, decay 0.9. *)
Definition gentleSettings : Settings :=
  {| intensity := 0.06; scale := 0.05; viscosity := 0.5; decay := 0.9;
     distortionStrength := 0.05; aberration := 0.01;
     lightIntensity := 0.04; specularPower := 8.1 |}.

(** Settings outside the documented domain: viscosity 2, radius -1. *)
Definition wildSettings : Settings :=
  {| intensity := 0.06; scale := -1; viscosity := 2; decay := 0.98;
     distortionStrength := 0.05; aberration := 0.01;
     lightIntensity := 0.04; specularPower := 8.1 |}.

(** The same settings with viscosity and radius clamped into their
    domains. *)
Definition clampedWildSettings : Settings :=
  {| intensity := 0.06; scale := Rmax (-1) 0; viscosity := clamp 2 0 1;
     decay := 0.98;
     distortionStrength := 0.05; aberration := 0.01;
     lightIntensity := 0.04; specularPower := 8.1 |}.

(** Three cleared targets; [mounted noTargets] is the component after
    its mount effects, the pointer never having entered the canvas. *)
Definition noTargets : Targets :=
  {| rt0 := cleared; rt1 := cleared; rt2 := cleared |}.

(** A render target as the simulation shader would fill it with the
    constant [v]. *)
Definition constant (v : R) : Texture := fun _ _ => Vec4 v v v 1.

(** A component with a quad mesh whose three targets hold the constant
    [v]. *)
Definition uniformState (v : R) : State :=
  setupQuadMesh
    (initialState
       {| rt0 := constant v; rt1 := constant v; rt2 := constant v |}).

(** A component with a quad mesh whose current field (target 0) is
    uniformly 1 and whose prev field (target 2) is uniformly 0. *)
Definition risingState : State :=
  setupQuadMesh
    (initialState
       {| rt0 := constant 1; rt1 := constant 0; rt2 := constant 0 |}).

(** The pointer is outside the canvas, and the stored current and
    previous positions are apart. *)
Definition strayState : State :=
  {| mouseRef := Vec2 0.1 0.9;
     prevMouseRef := Vec2 0.5 0.5;
     mouseVelocityRef := 0;
     isPointerInsideRef := false;
     pingPongRef := 0;
     renderTargets := noTargets;
     quadMeshRef := true |}.

(** A displacement field that falls by 0.0075 per cell along x. *)
Definition ramp : Texture := fun i _ => Vec4 (-0.0075 * IZR i) 0 0 1.

(** An image whose colour channels are the x coordinate. *)
Definition gradientImage : sampler2D :=
  fun uv => Vec4 (x2 uv) (x2 uv) (x2 uv) 1.

(** The image material over the ramp, image and plane of aspect 1. *)
Definition tiltedUniforms : ImageShader.ImageUniforms :=
  imageUniforms demoSettings (Vec2 1 1) gradientImage 1 ramp.

(** The image material over the cleared render target. *)
Definition stillUniforms : ImageShader.ImageUniforms :=
  imageUniforms demoSettings (Vec2 1 1) gradientImage 1 cleared.

(** The fragment at the centre of cell (510, 256), near the right edge. *)
Definition edgeFragment : vec2 := cellCentre 510 256.

(** A fragment half a thousandth from the left edge of the plane. *)
Definition borderFragment : vec2 := Vec2 0.0005 0.5.

(** * The rest of the component *)

(** [imageVertexShader]: the varying [vScreenUv] of a vertex whose world
    position has the x and y components [worldPos]. *)
Definition vScreenUvOf (worldPos uViewportSize : vec2) : vec2 :=
  Vec2 ((x2 worldPos + x2 uViewportSize * 0.5) / x2 uViewportSize)
       ((y2 worldPos + y2 uViewportSize * 0.5) / y2 uViewportSize).

(** The candidate the trail loop compares with [ripple] in iteration
    [i]. *)
Definition trailTerm (u : FluidShader.FluidUniforms) (vUv : vec2) (i : R)
  : R :=
  let t := i / 8 in
  let trailPos := mix2 (FluidShader.uPrevMouse u) (FluidShader.uMouse u) t in
  let d := distance vUv trailPos in
  let trailRipple := smoothstep (FluidShader.uRadius u * 0.7) 0 d in
  pow trailRipple 2.




Definition inUnitSquare (p : vec2) : Prop :=
  0 <= x2 p <= 1 /\ 0 <= y2 p <= 1.


(** The state [s] with other contents in its render targets. *)
Definition withTargets (s : State) (rts : Targets) : State :=
  {| mouseRef := mouseRef s;
     prevMouseRef := prevMouseRef s;
     mouseVelocityRef := mouseVelocityRef s;
     isPointerInsideRef := isPointerInsideRef s;
     pingPongRef := pingPongRef s;
     renderTargets := rts;
     quadMeshRef := quadMeshRef s |}.

(** Every stored cell of [t] has a height of absolute value at most
    [M]. *)
Definition bounded (t : Texture) (M : R) : Prop :=
  forall i j, inGrid i j -> Rabs (heightAt t i j) <= M.

(** The pointer is inside at the centre of cell (256, 256), having come
    from a tenth of the canvas to the left; both fields are zero. *)
Definition strokeState : State :=
  {| mouseRef := cellCentre 256 256;
     prevMouseRef := Vec2 ((IZR 256 + 0.5) / IZR RESOLUTION - 0.1)
                          ((IZR 256 + 0.5) / IZR RESOLUTION);
     mouseVelocityRef := 0;
     isPointerInsideRef := true;
     pingPongRef := 0;
     renderTargets := noTargets;
     quadMeshRef := true |}.

(** A canvas of 800 by 600 pixels at the origin of the page. *)
Definition canvasRect : Rect :=
  {| left := 0; top := 0; width := 800; height := 600 |}.

(** Decimal literals are rationals injected in [R]; [decimals] exposes
    them as quotients of integers for [field] and [ring]. *)
Ltac decimals := unfold Q2R; cbn [Qnum Qden].

(** * Properties *)

(** ** Arithmetic of the built-ins *)

Lemma mix_0 (x y : R) : mix x y 0 = x.
Proof. unfold mix; ring. Qed.

Lemma mix_same (x a : R) : mix x x a = x.
Proof. unfold mix; ring. Qed.

Lemma mix4_0 (p q : vec4) : mix4 p q 0 = p.
Proof. destruct p; unfold mix4; simpl; now rewrite !mix_0. Qed.

Lemma clamp_bounds (x lo hi : R) : lo <= hi -> lo <= clamp x lo hi <= hi.
Proof.
  intros Hle; unfold clamp, Rmin, Rmax.
  destruct (Rle_dec x lo); destruct (Rle_dec _ hi); lra.
Qed.

Lemma clamp_id (x lo hi : R) : lo <= x <= hi -> clamp x lo hi = x.
Proof.
  intros [H1 H2]; unfold clamp, Rmin, Rmax.
  destruct (Rle_dec x lo); destruct (Rle_dec _ hi); lra.
Qed.

Lemma clamp_below (x lo hi : R) : x <= lo -> lo <= hi -> clamp x lo hi = lo.
Proof.
  intros H1 H2; unfold clamp, Rmin, Rmax.
  destruct (Rle_dec x lo); destruct (Rle_dec _ hi); lra.
Qed.

(** ** Sampling a render target at texel centres *)

Lemma Int_part_IZR (z : Z) : Int_part (IZR z) = z.
Proof. symmetry; apply Int_part_spec; lra. Qed.

Lemma frac_part_IZR (z : Z) : frac_part (IZR z) = 0.
Proof. unfold frac_part; rewrite Int_part_IZR; ring. Qed.

Lemma clampIndex_id (i : Z) : (0 <= i < RESOLUTION)%Z -> clampIndex i = i.
Proof. unfold clampIndex, RESOLUTION; lia. Qed.

Lemma clampIndex_range (i : Z) : (0 <= clampIndex i < RESOLUTION)%Z.
Proof. unfold clampIndex, RESOLUTION; lia. Qed.

(** A coordinate that falls on the centre of texel [(i, j)] reads that
    texel, its index clamped to the grid. *)
Lemma linearSample_centre (t : Texture) (uv : vec2) (i j : Z) :
  x2 uv * IZR RESOLUTION - 0.5 = IZR i ->
  y2 uv * IZR RESOLUTION - 0.5 = IZR j ->
  linearSample t uv = t (clampIndex i) (clampIndex j).
Proof.
  intros Hu Hv; unfold linearSample.
  rewrite Hu, Hv, !Int_part_IZR, !frac_part_IZR.
  now rewrite !mix4_0.
Qed.

Lemma IZR_RESOLUTION_pos : 0 < IZR RESOLUTION.
Proof. unfold RESOLUTION; lra. Qed.

(** The sample one texel to the side: [di], [dj] count texels. *)
Lemma linearSample_offset (t : Texture) (i j di dj : Z) (ox oy : R) :
  ox = IZR di / IZR RESOLUTION -> oy = IZR dj / IZR RESOLUTION ->
  linearSample t (add2 (cellCentre i j) (Vec2 ox oy))
  = t (clampIndex (i + di)) (clampIndex (j + dj)).
Proof.
  intros -> ->; apply linearSample_centre; simpl; rewrite plus_IZR;
    unfold RESOLUTION; field.
Qed.

Lemma linearSample_cell (t : Texture) (i j : Z) :
  linearSample t (cellCentre i j) = t (clampIndex i) (clampIndex j).
Proof.
  apply linearSample_centre; simpl; unfold RESOLUTION; field.
Qed.

(** ** The buffers and their roles *)

Lemma rtGet_Some_range (rts : Targets) (k : Z) (t : Texture) :
  rtGet rts k = Some t -> (0 <= k < 3)%Z.
Proof.
  destruct k as [|p|p]; simpl; try discriminate; try lia.
  destruct p as [p|p|]; try destruct p; simpl; try discriminate; lia.
Qed.

Lemma rtGet_range (rts : Targets) (k : Z) :
  (0 <= k < 3)%Z -> exists t, rtGet rts k = Some t.
Proof.
  intros H.
  assert (k = 0 \/ k = 1 \/ k = 2)%Z as [-> | [-> | ->]] by lia;
    simpl; eauto.
Qed.

Lemma rtGet_rtWrite_same (rts : Targets) (k : Z) (t : Texture) :
  (0 <= k < 3)%Z -> rtGet (rtWrite rts k t) k = Some t.
Proof.
  intros H.
  assert (k = 0 \/ k = 1 \/ k = 2)%Z as [-> | [-> | ->]] by lia;
    reflexivity.
Qed.

Lemma nextIndex_range (c : Z) : (0 <= c < 3)%Z -> (0 <= nextIndex c < 3)%Z.
Proof.
  intros H; unfold nextIndex.
  assert (c = 0 \/ c = 1 \/ c = 2)%Z as [-> | [-> | ->]] by lia;
    vm_compute; split; congruence.
Qed.

Lemma prevIndex_range (c : Z) : (0 <= c < 3)%Z -> (0 <= prevIndex c < 3)%Z.
Proof.
  intros H; unfold prevIndex.
  assert (c = 0 \/ c = 1 \/ c = 2)%Z as [-> | [-> | ->]] by lia;
    vm_compute; split; congruence.
Qed.

(** A frame of a mounted component whose index is in range: it
    succeeds, and the target in the [next] role holds the shader's
    output. *)
Lemma useFrame_mounted (settings : Settings) (s : State) (p c : Texture) :
  quadMeshRef s = true ->
  rtGet (renderTargets s) (prevIndex (pingPongRef s)) = Some p ->
  rtGet (renderTargets s) (pingPongRef s) = Some c ->
  let u := fluidUniforms settings s p c in
  let next := nextIndex (pingPongRef s) in
  useFrame settings s
  = Some {| mouseRef := mouseRef s;
            prevMouseRef := mouseRef s;
            mouseVelocityRef := frameVelocity s;
            isPointerInsideRef := isPointerInsideRef s;
            pingPongRef := next;
            renderTargets :=
              rtWrite (renderTargets s) next
                      (render (FluidShader.fluidUpdateShader u));
            quadMeshRef := true |}.
Proof.
  intros Hq Hp Hc u next.
  unfold useFrame, frameUniforms, currentIndex.
  now rewrite Hq, Hp, Hc.
Qed.

(** ** The wave update on the grid *)

Lemma waveUpdate_cell (settings : Settings) (s : State) (p c : Texture)
    (i j : Z) :
  inGrid i j ->
  FluidShader.waveUpdate (fluidUniforms settings s p c) (cellCentre i j)
  = cellWave (viscosity settings) (decay settings) p c i j.
Proof.
  intros [Hi Hj].
  unfold FluidShader.waveUpdate, cellWave, dampedWave, texture2D, heightAt.
  cbn [FluidShader.uCurrentState FluidShader.uPrevState
       FluidShader.uResolution FluidShader.uViscosity FluidShader.uDecay
       fluidUniforms x2 y2].
  rewrite !linearSample_cell.
  rewrite (linearSample_offset c i j (-1) 0) by (unfold RESOLUTION; lra).
  rewrite (linearSample_offset c i j 1 0) by (unfold RESOLUTION; lra).
  rewrite (linearSample_offset c i j 0 1) by (unfold RESOLUTION; lra).
  rewrite (linearSample_offset c i j 0 (-1)) by (unfold RESOLUTION; lra).
  rewrite !Z.add_0_r, !(clampIndex_id i), !(clampIndex_id j) by assumption.
  replace (i + -1)%Z with (i - 1)%Z by lia.
  replace (j + -1)%Z with (j - 1)%Z by lia.
  unfold mix; ring.
Qed.

(** What a frame leaves in the cell [(i, j)] of the target in the
    [next] role: the shader's output at the centre of the cell. *)
Lemma useFrame_next_cell (settings : Settings) (s : State) (p c : Texture)
    (i j : Z) :
  quadMeshRef s = true ->
  rtGet (renderTargets s) (prevIndex (pingPongRef s)) = Some p ->
  rtGet (renderTargets s) (pingPongRef s) = Some c ->
  exists s' nextTex,
    useFrame settings s = Some s' /\
    pingPongRef s' = nextIndex (pingPongRef s) /\
    rtGet (renderTargets s') (nextIndex (pingPongRef s)) = Some nextTex /\
    nextTex i j
    = FluidShader.fluidUpdateShader (fluidUniforms settings s p c)
        (cellCentre i j).
Proof.
  intros Hq Hp Hc.
  eexists; eexists; split; [ now apply useFrame_mounted with (p := p) (c := c) | ].
  cbn [pingPongRef renderTargets]; split; [ reflexivity | split ].
  - apply rtGet_rtWrite_same, nextIndex_range.
    eapply rtGet_Some_range; eassumption.
  - reflexivity.
Qed.

Lemma fluidWave_still (u : FluidShader.FluidUniforms) (vUv : vec2) :
  FluidShader.uMouseVelocity u <= 0.0001 ->
  FluidShader.fluidWave u vUv = FluidShader.waveUpdate u vUv.
Proof.
  intros Hv; unfold FluidShader.fluidWave.
  destruct (Rgt_dec (FluidShader.uMouseVelocity u) 0.0001); [ lra | reflexivity ].
Qed.

(** C1: for every grid cell the frame computes, before any injection,
    [neighborAvg = 0.25 * (left + right + top + bottom)] of the current
    field, [wave = 2 * neighborAvg - prev], [wave = mix(current, wave,
    viscosity)], [wave = wave * decay]; this is the value of [waveUpdate]
    at the cell, and the cell of the next buffer receives it in its
    colour channels (plus [finalRipple] in a frame that injects). *)
Theorem C1_wave_update_per_cell (settings : Settings) (s : State)
    (p c : Texture) (i j : Z) :
  quadMeshRef s = true ->
  rtGet (renderTargets s) (prevIndex (pingPongRef s)) = Some p ->
  rtGet (renderTargets s) (pingPongRef s) = Some c ->
  inGrid i j ->
  let u := fluidUniforms settings s p c in
  let left := heightAt c (clampIndex (i - 1)) j in
  let right := heightAt c (clampIndex (i + 1)) j in
  let top := heightAt c i (clampIndex (j + 1)) in
  let bottom := heightAt c i (clampIndex (j - 1)) in
  let neighborAvg := 0.25 * (left + right + top + bottom) in
  let wave := 2 * neighborAvg - heightAt p i j in
  let wave := mix (heightAt c i j) wave (viscosity settings) in
  let wave := wave * decay settings in
  FluidShader.waveUpdate u (cellCentre i j) = wave /\
  exists s' nextTex,
    useFrame settings s = Some s' /\
    rtGet (renderTargets s') (nextIndex (pingPongRef s)) = Some nextTex /\
    let written :=
      if Rgt_dec (frameVelocity s) 0.0001
      then wave + FluidShader.finalRipple u (cellCentre i j)
      else wave in
    nextTex i j = Vec4 written written written 1.
Proof.
  intros Hq Hp Hc Hin u left right top bottom neighborAvg wave wave0 wave1.
  assert (Hw : FluidShader.waveUpdate u (cellCentre i j) = wave1)
    by (unfold u; rewrite waveUpdate_cell by assumption; reflexivity).
  split; [ exact Hw | ].
  destruct (useFrame_next_cell settings s p c i j Hq Hp Hc)
    as (s' & nextTex & Hs' & _ & Hget & Hcell).
  exists s', nextTex; repeat split; try assumption.
  cbv zeta; rewrite Hcell.
  unfold FluidShader.fluidUpdateShader, FluidShader.fluidWave.
  fold u; rewrite Hw; reflexivity.
Qed.

Lemma inGrid_origin : inGrid 0 0.
Proof. unfold inGrid, RESOLUTION; lia. Qed.

Lemma C1_wave_update_per_cell_witness :
  FluidShader.waveUpdate
    (fluidUniforms demoSettings risingState (constant 0) (constant 1))
    (cellCentre 0 0)
  = mix 1 (2 * (0.25 * (1 + 1 + 1 + 1)) - 0) 0.89 * 0.98.
Proof.
  exact (proj1 (C1_wave_update_per_cell demoSettings risingState
                  (constant 0) (constant 1) 0 0 eq_refl eq_refl eq_refl
                  inGrid_origin)).
Defined.

(** ** The rotation of the buffer roles *)

Lemma useFrame_advance (settings : Settings) (s : State) :
  quadMeshRef s = true ->
  (0 <= pingPongRef s < 3)%Z ->
  exists s',
    useFrame settings s = Some s' /\
    pingPongRef s' = nextIndex (pingPongRef s) /\
    quadMeshRef s' = true.
Proof.
  intros Hq Hc.
  destruct (rtGet_range (renderTargets s) _ (prevIndex_range _ Hc)) as [p Hp].
  destruct (rtGet_range (renderTargets s) _ Hc) as [c Hget].
  eexists; split;
    [ now apply useFrame_mounted with (p := p) (c := c) | split; reflexivity ].
Qed.

Lemma nextIndex_thrice (c : Z) :
  (0 <= c < 3)%Z -> nextIndex (nextIndex (nextIndex c)) = c.
Proof.
  intros H.
  assert (c = 0 \/ c = 1 \/ c = 2)%Z as [-> | [-> | ->]] by lia; reflexivity.
Qed.

Lemma prevIndex_nextIndex (c : Z) :
  (0 <= c < 3)%Z -> prevIndex (nextIndex c) = c.
Proof.
  intros H.
  assert (c = 0 \/ c = 1 \/ c = 2)%Z as [-> | [-> | ->]] by lia; reflexivity.
Qed.

(** C2: with [prev = (c + 2) mod 3], [current = c], [next = (c + 1) mod 3]
    and the index advancing to [next] in every frame, from every starting
    index [c] in {0, 1, 2} the buffer in the current role after one frame
    is the one that was in the next role before it, and after exactly
    three frames every role is back on the buffer it started on. *)
Theorem C2_buffer_roles_cycle (settings : Settings) (s : State) :
  quadMeshRef s = true ->
  (0 <= pingPongRef s < 3)%Z ->
  (exists s1,
      useFrame settings s = Some s1 /\
      currentIndex (pingPongRef s1) = nextIndex (pingPongRef s)) /\
  (exists s3,
      frames settings 3 s = Some s3 /\
      prevIndex (pingPongRef s3) = prevIndex (pingPongRef s) /\
      currentIndex (pingPongRef s3) = currentIndex (pingPongRef s) /\
      nextIndex (pingPongRef s3) = nextIndex (pingPongRef s)).
Proof.
  intros Hq Hc.
  destruct (useFrame_advance settings s Hq Hc) as (s1 & H1 & Hc1 & Hq1).
  assert (Hr1 : (0 <= pingPongRef s1 < 3)%Z)
    by (rewrite Hc1; now apply nextIndex_range).
  destruct (useFrame_advance settings s1 Hq1 Hr1) as (s2 & H2 & Hc2 & Hq2).
  assert (Hr2 : (0 <= pingPongRef s2 < 3)%Z)
    by (rewrite Hc2; now apply nextIndex_range).
  destruct (useFrame_advance settings s2 Hq2 Hr2) as (s3 & H3 & Hc3 & _).
  split.
  - exists s1; split; [ exact H1 | exact Hc1 ].
  - exists s3.
    assert (Hback : pingPongRef s3 = pingPongRef s)
      by (rewrite Hc3, Hc2, Hc1; now apply nextIndex_thrice).
    split; [ cbn [frames]; now rewrite H1, H2, H3 | ].
    now rewrite Hback.
Qed.

Lemma mounted_index_range (rts : Targets) :
  (0 <= pingPongRef (mounted rts) < 3)%Z.
Proof. cbn; lia. Qed.

Lemma C2_buffer_roles_cycle_witness :
  (exists s1,
      useFrame demoSettings (mounted noTargets) = Some s1 /\
      currentIndex (pingPongRef s1) = 1%Z) /\
  (exists s3,
      frames demoSettings 3 (mounted noTargets) = Some s3 /\
      prevIndex (pingPongRef s3) = 2%Z /\
      currentIndex (pingPongRef s3) = 0%Z /\
      nextIndex (pingPongRef s3) = 1%Z).
Proof.
  exact (C2_buffer_roles_cycle demoSettings (mounted noTargets) eq_refl
           (mounted_index_range noTargets)).
Defined.

(** ** Frames without injection over uniform fields *)

Lemma uniformWave_eq (visc dec a b : R) :
  uniformWave visc dec a b = dec * ((1 + visc) * b - visc * a).
Proof. unfold uniformWave, dampedWave, mix; decimals; field. Qed.

Lemma cellWave_uniform (visc dec : R) (p c : Texture) (a b : R) (i j : Z) :
  uniform p a -> uniform c b -> inGrid i j ->
  cellWave visc dec p c i j = uniformWave visc dec a b.
Proof.
  intros Hp Hc [Hi Hj]; unfold cellWave, uniformWave.
  rewrite (Hp i j), !Hc; try reflexivity;
    split; try assumption; apply clampIndex_range.
Qed.

Lemma frameVelocity_rest (s : State) :
  mouseRef s = prevMouseRef s -> frameVelocity s = 0.
Proof.
  intros H; unfold frameVelocity; rewrite H.
  destruct (isPointerInsideRef s); [ | reflexivity ].
  replace (_ + _) with 0 by ring; apply sqrt_0.
Qed.

Lemma frameVelocity_outside (s : State) :
  isPointerInsideRef s = false -> frameVelocity s = 0.
Proof. intros H; unfold frameVelocity; now rewrite H. Qed.

(** One frame without injection over uniform [prev] and [current]
    fields: the frame succeeds, the roles rotate, the written field is
    uniform, and the next frame starts with the pointer at rest. *)
Lemma useFrame_uniform (settings : Settings) (s : State) (p c : Texture)
    (a b : R) :
  quadMeshRef s = true ->
  roles s p c ->
  uniform p a -> uniform c b ->
  frameVelocity s <= 0.0001 ->
  exists s' c',
    useFrame settings s = Some s' /\
    quadMeshRef s' = true /\
    pingPongRef s' = nextIndex (pingPongRef s) /\
    renderTargets s' = rtWrite (renderTargets s) (pingPongRef s') c' /\
    roles s' c c' /\
    uniform c' (uniformWave (viscosity settings) (decay settings) a b) /\
    (forall i j, inGrid i j -> a4 (c' i j) = 1) /\
    frameVelocity s' = 0.
Proof.
  intros Hq [Hp Hc] Ha Hb Hv.
  pose proof (rtGet_Some_range _ _ _ Hc) as Hr.
  exists {| mouseRef := mouseRef s;
            prevMouseRef := mouseRef s;
            mouseVelocityRef := frameVelocity s;
            isPointerInsideRef := isPointerInsideRef s;
            pingPongRef := nextIndex (pingPongRef s);
            renderTargets :=
              rtWrite (renderTargets s) (nextIndex (pingPongRef s))
                (render (FluidShader.fluidUpdateShader
                           (fluidUniforms settings s p c)));
            quadMeshRef := true |}.
  eexists; split; [ now apply useFrame_mounted | ].
  unfold roles; cbn [quadMeshRef pingPongRef renderTargets].
  repeat split.
  - rewrite prevIndex_nextIndex by assumption.
    revert Hc; generalize (renderTargets s); intros rts Hc.
    assert (pingPongRef s = 0 \/ pingPongRef s = 1 \/ pingPongRef s = 2)%Z
      as [E | [E | E]] by lia; rewrite E in *; exact Hc.
  - apply rtGet_rtWrite_same, nextIndex_range, Hr.
  - intros i j Hin; unfold heightAt, render, FluidShader.fluidUpdateShader.
    cbn [r4]; rewrite fluidWave_still by exact Hv.
    rewrite waveUpdate_cell by exact Hin.
    now apply cellWave_uniform.
  - now apply frameVelocity_rest.
Qed.

Lemma fluidUpdate_still (u : FluidShader.FluidUniforms) (vUv : vec2) :
  FluidShader.uMouseVelocity u <= 0.0001 ->
  FluidShader.fluidUpdateShader u vUv
  = Vec4 (FluidShader.waveUpdate u vUv) (FluidShader.waveUpdate u vUv)
         (FluidShader.waveUpdate u vUv) 1.
Proof.
  intros Hv; unfold FluidShader.fluidUpdateShader.
  now rewrite fluidWave_still.
Qed.

(** C3: when the velocity sampled in the frame does not exceed 0.0001
    (in particular when it is 0) the shader adds no ripple term: at every
    coordinate its output is the damped-wave update alone, and every cell
    of the next buffer receives the damped-wave update of that cell
    (neighbour average, wave equation, viscosity mix, decay). *)
Theorem C3_no_injection_below_threshold (settings : Settings) (s : State)
    (p c : Texture) :
  quadMeshRef s = true ->
  roles s p c ->
  frameVelocity s <= 0.0001 ->
  let u := fluidUniforms settings s p c in
  (forall vUv,
      FluidShader.fluidUpdateShader u vUv
      = Vec4 (FluidShader.waveUpdate u vUv) (FluidShader.waveUpdate u vUv)
             (FluidShader.waveUpdate u vUv) 1) /\
  exists s' nextTex,
    useFrame settings s = Some s' /\
    rtGet (renderTargets s') (nextIndex (pingPongRef s)) = Some nextTex /\
    forall i j, inGrid i j ->
      heightAt nextTex i j
      = dampedWave (viscosity settings) (decay settings)
          (heightAt c i j) (heightAt p i j)
          (heightAt c (clampIndex (i - 1)) j) (heightAt c (clampIndex (i + 1)) j)
          (heightAt c i (clampIndex (j + 1))) (heightAt c i (clampIndex (j - 1))).
Proof.
  intros Hq [Hp Hc] Hv u.
  split.
  - intros vUv; now apply fluidUpdate_still.
  - pose proof (rtGet_Some_range _ _ _ Hc) as Hr.
    eexists; eexists; split;
      [ now apply useFrame_mounted with (p := p) (c := c) | ].
    cbn [renderTargets]; split;
      [ apply rtGet_rtWrite_same, nextIndex_range, Hr | ].
    intros i j Hin; unfold heightAt at 1, render.
    rewrite fluidUpdate_still by exact Hv.
    cbn [r4]; now rewrite waveUpdate_cell.
Qed.

Lemma mounted_roles (rts : Targets) : roles (mounted rts) cleared cleared.
Proof. split; reflexivity. Qed.

Lemma mounted_velocity (rts : Targets) : frameVelocity (mounted rts) <= 0.0001.
Proof. rewrite frameVelocity_outside by reflexivity; lra. Qed.

Lemma C3_no_injection_below_threshold_witness :
  FluidShader.fluidUpdateShader
    (fluidUniforms demoSettings (mounted noTargets) cleared cleared)
    (cellCentre 0 0)
  = let w :=
      FluidShader.waveUpdate
        (fluidUniforms demoSettings (mounted noTargets) cleared cleared)
        (cellCentre 0 0)
    in Vec4 w w w 1.
Proof.
  exact (proj1 (C3_no_injection_below_threshold demoSettings
                  (mounted noTargets) cleared cleared eq_refl
                  (mounted_roles noTargets) (mounted_velocity noTargets))
           (cellCentre 0 0)).
Defined.

(** ** The zero field *)

Lemma rtGet_allUniform (rts : Targets) (v : R) (k : Z) (t : Texture) :
  allUniform rts v -> rtGet rts k = Some t -> uniform t v.
Proof.
  intros (H0 & H1 & H2) Hget.
  pose proof (rtGet_Some_range _ _ _ Hget) as Hr.
  assert (k = 0 \/ k = 1 \/ k = 2)%Z as [E | [E | E]] by lia;
    rewrite E in Hget; injection Hget as <-; assumption.
Qed.

Lemma rtWrite_allUniform (rts : Targets) (v : R) (k : Z) (t : Texture) :
  allUniform rts v -> uniform t v -> allUniform (rtWrite rts k t) v.
Proof.
  intros (H0 & H1 & H2) Ht.
  destruct k as [|q|q]; [ | | now repeat split ]; [ now repeat split | ].
  destruct q as [q|q|]; [ destruct q | destruct q | ]; now repeat split.
Qed.

Lemma cleared_uniform : uniform cleared 0.
Proof. intros i j _; reflexivity. Qed.

Lemma uniformWave_zero (visc dec : R) : uniformWave visc dec 0 0 = 0.
Proof. rewrite uniformWave_eq; ring. Qed.

(** Frames over zero fields with the pointer at rest. *)
Lemma frames_zero (settings : Settings) (n : nat) :
  forall s,
    (0 <= pingPongRef s < 3)%Z ->
    allUniform (renderTargets s) 0 ->
    frameVelocity s <= 0.0001 ->
    exists s', frames settings n s = Some s' /\
               allUniform (renderTargets s') 0.
Proof.
  induction n as [|n IH]; intros s Hr Hz Hv; [ now exists s | ].
  cbn [frames].
  destruct (quadMeshRef s) eqn:Hq.
  - destruct (rtGet_range (renderTargets s) _ (prevIndex_range _ Hr))
      as [p Hp].
    destruct (rtGet_range (renderTargets s) _ Hr) as [c Hc].
    destruct (useFrame_uniform settings s p c 0 0 Hq (conj Hp Hc)
                (rtGet_allUniform _ _ _ _ Hz Hp)
                (rtGet_allUniform _ _ _ _ Hz Hc) Hv)
      as (s' & c' & Hs' & _ & Hidx & Hrt & _ & Hu & _ & Hv').
    rewrite Hs'; apply IH.
    + rewrite Hidx; now apply nextIndex_range.
    + rewrite Hrt; apply rtWrite_allUniform; [ exact Hz | ].
      now rewrite uniformWave_zero in Hu.
    + rewrite Hv'; lra.
  - unfold useFrame; rewrite Hq; cbn [negb]; now apply IH.
Qed.

(** C10: the all-zero field is a fixed point of a frame without
    injection: over zero prev and current fields and a velocity of at
    most 0.0001 the frame writes 0 to every cell of the next buffer, for
    all settings; hence from the cleared buffers of the mounted component
    every render target is still identically zero after any number of
    frames without a pointer event. *)
Theorem C10_zero_field_fixed_point (settings : Settings) :
  (forall s p c,
      quadMeshRef s = true ->
      roles s p c ->
      uniform p 0 -> uniform c 0 ->
      frameVelocity s <= 0.0001 ->
      exists s' nextTex,
        useFrame settings s = Some s' /\
        rtGet (renderTargets s') (nextIndex (pingPongRef s)) = Some nextTex /\
        forall i j, inGrid i j -> nextTex i j = Vec4 0 0 0 1) /\
  (forall rts n,
      exists s',
        frames settings n (mounted rts) = Some s' /\
        allUniform (renderTargets s') 0).
Proof.
  split.
  - intros s p c Hq [Hgp Hgc] Hp Hc Hv.
    pose proof (rtGet_Some_range _ _ _ Hgc) as Hr.
    eexists; eexists; split;
      [ now apply useFrame_mounted with (p := p) (c := c) | ].
    cbn [renderTargets]; split;
      [ apply rtGet_rtWrite_same, nextIndex_range, Hr | ].
    intros i j Hin; unfold render.
    rewrite fluidUpdate_still by exact Hv.
    rewrite waveUpdate_cell by exact Hin.
    rewrite (cellWave_uniform _ _ p c 0 0) by assumption.
    now rewrite uniformWave_zero.
  - intros rts n; apply frames_zero.
    + apply mounted_index_range.
    + repeat split; apply cleared_uniform.
    + apply mounted_velocity.
Qed.

Lemma C10_zero_field_fixed_point_witness :
  exists s' nextTex,
    useFrame demoSettings (mounted noTargets) = Some s' /\
    rtGet (renderTargets s') 1%Z = Some nextTex /\
    forall i j, inGrid i j -> nextTex i j = Vec4 0 0 0 1.
Proof.
  exact (proj1 (C10_zero_field_fixed_point demoSettings)
           (mounted noTargets) cleared cleared eq_refl
           (mounted_roles noTargets) cleared_uniform cleared_uniform
           (mounted_velocity noTargets)).
Defined.

(** ** Repeated frames over a uniform field *)

Lemma uniformSeq_S (visc dec a b : R) (n : nat) :
  uniformSeq visc dec a b (S n)
  = (snd (uniformSeq visc dec a b n),
     uniformWave visc dec (fst (uniformSeq visc dec a b n))
       (snd (uniformSeq visc dec a b n))).
Proof.
  revert a b; induction n as [|n IH]; intros a b; [ reflexivity | ].
  change (uniformSeq visc dec a b (S (S n)))
    with (uniformSeq visc dec b (uniformWave visc dec a b) (S n)).
  now rewrite IH.
Qed.

Lemma frames_uniform (settings : Settings) (n : nat) :
  forall s p c a b,
    quadMeshRef s = true ->
    roles s p c ->
    uniform p a -> uniform c b ->
    frameVelocity s <= 0.0001 ->
    exists s' p' c',
      frames settings n s = Some s' /\
      quadMeshRef s' = true /\
      roles s' p' c' /\
      frameVelocity s' <= 0.0001 /\
      uniform p'
        (fst (uniformSeq (viscosity settings) (decay settings) a b n)) /\
      uniform c'
        (snd (uniformSeq (viscosity settings) (decay settings) a b n)).
Proof.
  induction n as [|n IH]; intros s p c a b Hq Hroles Ha Hb Hv.
  - exists s, p, c; cbn [frames uniformSeq fst snd]; tauto.
  - destruct (useFrame_uniform settings s p c a b Hq Hroles Ha Hb Hv)
      as (s1 & c1 & Hs1 & Hq1 & _ & _ & Hroles1 & Hu1 & _ & Hv1).
    assert (Hv1' : frameVelocity s1 <= 0.0001) by (rewrite Hv1; lra).
    destruct (IH s1 c c1 b _ Hq1 Hroles1 Hb Hu1 Hv1')
      as (s' & p' & c' & Hs' & Hrest).
    exists s', p', c'; split; [ cbn [frames]; now rewrite Hs1 | exact Hrest ].
Qed.

(** The heights stay positive and fall strictly when the characteristic
    polynomial [x^2 - dec (1 + visc) x + dec visc] of the recurrence has
    real roots. *)
Lemma uniformSeq_monotone (visc dec v : R) (n : nat) :
  0 < v -> 0 <= visc <= 1 -> 0 < dec < 1 ->
  dec * ((1 + visc) * (1 + visc)) >= 4 * visc ->
  let a := fst (uniformSeq visc dec v v n) in
  let b := snd (uniformSeq visc dec v v n) in
  0 < b /\ b <= a /\ dec * (1 + visc) / 2 * a <= b /\ b <= v * dec ^ n.
Proof.
  intros Hv Hvisc Hdec Hdisc.
  induction n as [|n IH]; cbv zeta.
  - cbn [uniformSeq fst snd Rpow_def.pow].
    assert (H1 : dec * (1 + visc) <= 2) by nra.
    assert (H2 : dec * (1 + visc) / 2 <= 1) by lra.
    repeat split; nra.
  - rewrite uniformSeq_S; cbn [fst snd]; rewrite uniformWave_eq.
    cbv zeta in IH.
    set (a := fst (uniformSeq visc dec v v n)) in *.
    set (b := snd (uniformSeq visc dec v v n)) in *.
    destruct IH as (Hb & Hba & Hlam & Hgeo).
    set (lam := dec * (1 + visc) / 2) in *.
    assert (Hlam0 : 0 < lam) by (unfold lam; nra).
    assert (Hlam2 : dec * visc <= lam * lam) by (unfold lam; nra).
    assert (Ha : 0 < a) by lra.
    assert (Hstep : lam * b <= dec * ((1 + visc) * b - visc * a)).
    { replace (dec * ((1 + visc) * b - visc * a))
        with (2 * lam * b - dec * visc * a) by (unfold lam; field).
      assert (dec * visc * a <= lam * lam * a) by nra.
      assert (lam * (lam * a) <= lam * b) by nra.
      nra. }
    assert (Hgap : 0 <= visc * (a - b)) by nra.
    assert (Hdown : dec * ((1 + visc) * b - visc * a) <= dec * b) by nra.
    assert (Hpos : 0 < lam * b) by nra.
    repeat split.
    + lra.
    + nra.
    + exact Hstep.
    + cbn [Rpow_def.pow]; nra.
Qed.

Lemma uniformSeq_strict (visc dec v : R) (n : nat) :
  0 < v -> 0 <= visc <= 1 -> 0 < dec < 1 ->
  dec * ((1 + visc) * (1 + visc)) >= 4 * visc ->
  let a := fst (uniformSeq visc dec v v n) in
  let b := snd (uniformSeq visc dec v v n) in
  0 < uniformWave visc dec a b < b /\ b <= v * dec ^ n.
Proof.
  intros Hv Hvisc Hdec Hdisc a b.
  destruct (uniformSeq_monotone visc dec v n Hv Hvisc Hdec Hdisc)
    as (Hb & Hba & _ & Hgeo).
  destruct (uniformSeq_monotone visc dec v (S n) Hv Hvisc Hdec Hdisc)
    as (Hb' & _ & _ & _).
  rewrite uniformSeq_S in Hb'; cbn [snd] in Hb'.
  fold a b in Hb, Hba, Hgeo, Hb'.
  repeat split; try assumption.
  rewrite uniformWave_eq.
  assert (Hgap : 0 <= visc * (a - b)) by nra.
  nra.
Qed.

Lemma constant_uniform (v : R) : uniform (constant v) v.
Proof. intros i j _; reflexivity. Qed.

Lemma uniformState_roles (v : R) :
  roles (uniformState v) (constant v) (constant v).
Proof. split; reflexivity. Qed.

Lemma uniformState_velocity (v : R) : frameVelocity (uniformState v) <= 0.0001.
Proof. rewrite frameVelocity_outside by reflexivity; lra. Qed.

(** C4, as stated, fails: from the uniform field 1 with viscosity 1 and
    decay 0.1 the field is uniformly -0.08 after two frames and
    uniformly -0.026 after three; the value has left the positive reals
    and the third frame raises it. *)
Lemma C4_counterexample :
  exists s2 c2 s3 c3,
    frames stiffSettings 2 (uniformState 1) = Some s2 /\
    rtGet (renderTargets s2) (pingPongRef s2) = Some c2 /\
    uniform c2 (-0.08) /\
    useFrame stiffSettings s2 = Some s3 /\
    rtGet (renderTargets s3) (pingPongRef s3) = Some c3 /\
    uniform c3 (-0.026) /\
    ~ (heightAt c3 0 0 < heightAt c2 0 0).
Proof.
  destruct (frames_uniform stiffSettings 2 (uniformState 1) _ _ 1 1 eq_refl
              (uniformState_roles 1) (constant_uniform 1) (constant_uniform 1)
              (uniformState_velocity 1))
    as (s2 & p2 & c2 & Hs2 & Hq2 & Hroles2 & Hv2 & Hp2 & Hc2).
  destruct (useFrame_uniform stiffSettings s2 p2 c2 _ _ Hq2 Hroles2 Hp2 Hc2 Hv2)
    as (s3 & c3 & Hs3 & _ & _ & _ & Hroles3 & Hc3 & _).
  assert (Hc2' : uniform c2 (-0.08)).
  { intros i j Hin; rewrite (Hc2 i j Hin).
    cbn [uniformSeq fst snd stiffSettings viscosity decay].
    rewrite !uniformWave_eq; lra. }
  assert (Hc3' : uniform c3 (-0.026)).
  { intros i j Hin; rewrite (Hc3 i j Hin).
    cbn [uniformSeq fst snd stiffSettings viscosity decay].
    rewrite !uniformWave_eq; lra. }
  exists s2, c2, s3, c3; repeat split;
    try assumption; try apply Hroles2; try apply Hroles3.
  rewrite (Hc2' 0%Z 0%Z inGrid_origin), (Hc3' 0%Z 0%Z inGrid_origin); lra.
Qed.

(** C4, amended: from prev and current fields uniformly [v] a frame
    without injection leaves the field uniformly [v * decay]; and when
    [v > 0], viscosity is in [[0,1]], decay in [(0,1)] and
    [decay * (1 + viscosity)^2 >= 4 * viscosity], the field after every
    number [n] of frames is uniform with a positive value that the next
    frame strictly lowers, and that value is at most [v * decay^n]. *)
Theorem C4_uniform_field_decay (settings : Settings) (s : State)
    (p c : Texture) (v : R) :
  quadMeshRef s = true ->
  roles s p c ->
  uniform p v -> uniform c v ->
  frameVelocity s <= 0.0001 ->
  (exists s1 c1,
      useFrame settings s = Some s1 /\
      roles s1 c c1 /\
      uniform c1 (v * decay settings)) /\
  (0 < v ->
   0 <= viscosity settings <= 1 ->
   0 < decay settings < 1 ->
   decay settings * ((1 + viscosity settings) * (1 + viscosity settings))
   >= 4 * viscosity settings ->
   forall n : nat,
   exists sn pn cn sn1 cn1 un un1,
     frames settings n s = Some sn /\
     roles sn pn cn /\
     uniform cn un /\
     useFrame settings sn = Some sn1 /\
     roles sn1 cn cn1 /\
     uniform cn1 un1 /\
     0 < un1 < un /\
     un <= v * decay settings ^ n).
Proof.
  intros Hq Hroles Hp Hc Hv; split.
  - destruct (useFrame_uniform settings s p c v v Hq Hroles Hp Hc Hv)
      as (s1 & c1 & Hs1 & _ & _ & _ & Hroles1 & Hu1 & _).
    exists s1, c1; repeat split; try assumption; try apply Hroles1.
    intros i j Hin; rewrite (Hu1 i j Hin), uniformWave_eq; ring.
  - intros Hpos Hvisc Hdec Hdisc n.
    destruct (frames_uniform settings n s p c v v Hq Hroles Hp Hc Hv)
      as (sn & pn & cn & Hsn & Hqn & Hrolesn & Hvn & Hpn & Hcn).
    destruct (useFrame_uniform settings sn pn cn _ _ Hqn Hrolesn Hpn Hcn Hvn)
      as (sn1 & cn1 & Hsn1 & _ & _ & _ & Hrolesn1 & Hcn1 & _).
    destruct (uniformSeq_strict _ _ v n Hpos Hvisc Hdec Hdisc)
      as (Hstrict & Hgeo).
    do 7 eexists.
    split; [ exact Hsn | ].
    split; [ exact Hrolesn | ].
    split; [ exact Hcn | ].
    split; [ exact Hsn1 | ].
    split; [ exact Hrolesn1 | ].
    split; [ exact Hcn1 | ].
    split; [ exact Hstrict | exact Hgeo ].
Qed.

Lemma C4_uniform_field_decay_witness :
  (exists s1 c1,
      useFrame gentleSettings (uniformState 1) = Some s1 /\
      roles s1 (constant 1) c1 /\
      uniform c1 (1 * 0.9)) /\
  (forall n : nat,
   exists sn pn cn sn1 cn1 un un1,
     frames gentleSettings n (uniformState 1) = Some sn /\
     roles sn pn cn /\
     uniform cn un /\
     useFrame gentleSettings sn = Some sn1 /\
     roles sn1 cn cn1 /\
     uniform cn1 un1 /\
     0 < un1 < un /\
     un <= 1 * 0.9 ^ n).
Proof.
  destruct (C4_uniform_field_decay gentleSettings (uniformState 1)
              (constant 1) (constant 1) 1 eq_refl (uniformState_roles 1)
              (constant_uniform 1) (constant_uniform 1)
              (uniformState_velocity 1)) as [H1 H2].
  split; [ exact H1 | apply H2; cbn [gentleSettings viscosity decay]; lra ].
Defined.

(** ** Cover fit *)

Lemma coverRatio_same (a : R) :
  a <> 0 -> ImageShader.coverRatio a a = Vec2 1 1.
Proof.
  intros Ha; unfold ImageShader.coverRatio.
  replace (a / a) with 1 by (now field).
  now rewrite Rmin_left by lra.
Qed.

Lemma coverUv_same (uv : vec2) (a : R) :
  a <> 0 -> ImageShader.coverUv uv a a = uv.
Proof.
  intros Ha; unfold ImageShader.coverUv; rewrite coverRatio_same by exact Ha.
  destruct uv as [x y]; cbn [x2 y2]; f_equal; ring.
Qed.

(** C9: the cover-fit remapping is the identity when image and plane have
    the same aspect [a > 0]: the ratio is [(1, 1)] and
    [coverUv(uv, a, a) = uv] for every [uv]. *)
Theorem C9_coverUv_identity (uv : vec2) (a : R) :
  0 < a ->
  ImageShader.coverRatio a a = Vec2 1 1 /\ ImageShader.coverUv uv a a = uv.
Proof.
  intros Ha; split;
    [ apply coverRatio_same | apply coverUv_same ]; lra.
Qed.

Lemma C9_coverUv_identity_witness :
  ImageShader.coverRatio 2 2 = Vec2 1 1 /\
  ImageShader.coverUv (Vec2 0.25 0.75) 2 2 = Vec2 0.25 0.75.
Proof.
  apply (C9_coverUv_identity (Vec2 0.25 0.75) 2); lra.
Defined.

(** ** Pointer velocity *)

(** C8: in a frame in which the pointer is outside the canvas the
    velocity sampled is exactly 0, whatever the stored current and
    previous positions: the frame's velocity is 0, the simulation receives
    0 as [uMouseVelocity], and 0 is what the frame stores in
    [mouseVelocityRef]. *)
Theorem C8_velocity_zero_outside (settings : Settings) (s : State) :
  isPointerInsideRef s = false ->
  frameVelocity s = 0 /\
  (forall u, frameUniforms settings s = Some u ->
             FluidShader.uMouseVelocity u = 0) /\
  (forall s', quadMeshRef s = true -> useFrame settings s = Some s' ->
              mouseVelocityRef s' = 0).
Proof.
  intros Hout.
  pose proof (frameVelocity_outside s Hout) as Hv.
  split; [ exact Hv | split ].
  - intros u; unfold frameUniforms.
    destruct (rtGet _ (prevIndex _)); [ | discriminate ].
    destruct (rtGet _ (currentIndex _)); [ | discriminate ].
    intros [= <-]; exact Hv.
  - intros s' Hq; unfold useFrame; rewrite Hq; cbn [negb].
    destruct (frameUniforms settings s); [ | discriminate ].
    intros [= <-]; exact Hv.
Qed.

Lemma C8_velocity_zero_outside_witness : frameVelocity strayState = 0.
Proof.
  exact (proj1 (C8_velocity_zero_outside demoSettings strayState eq_refl)).
Defined.

(** ** Settings reach the shaders as given *)

Lemma risingState_roles : roles risingState (constant 0) (constant 1).
Proof. split; reflexivity. Qed.

Lemma risingState_velocity : frameVelocity risingState <= 0.0001.
Proof. rewrite frameVelocity_outside by reflexivity; lra. Qed.

(** C6, as stated, fails: with viscosity 2 and radius -1 the frame runs,
    the shader receives [uViscosity = 2] and [uRadius = -1], not the
    clamped 1 and 0, and the field it writes (uniformly 2.94 over prev 0
    and current 1) differs from the field the clamped settings give
    (uniformly 1.96). *)
Lemma C6_counterexample :
  exists u s' nextTex s'' nextTex',
    frameUniforms wildSettings risingState = Some u /\
    FluidShader.uViscosity u = 2 /\
    FluidShader.uViscosity u <> clamp 2 0 1 /\
    FluidShader.uRadius u = -1 /\
    FluidShader.uRadius u <> Rmax (-1) 0 /\
    useFrame wildSettings risingState = Some s' /\
    rtGet (renderTargets s') (pingPongRef s') = Some nextTex /\
    uniform nextTex 2.94 /\
    useFrame clampedWildSettings risingState = Some s'' /\
    rtGet (renderTargets s'') (pingPongRef s'') = Some nextTex' /\
    uniform nextTex' 1.96.
Proof.
  destruct (useFrame_uniform wildSettings risingState _ _ 0 1 eq_refl
              risingState_roles (constant_uniform 0) (constant_uniform 1)
              risingState_velocity)
    as (s' & t' & Hs' & _ & _ & _ & Hroles' & Hu' & _).
  destruct (useFrame_uniform clampedWildSettings risingState _ _ 0 1 eq_refl
              risingState_roles (constant_uniform 0) (constant_uniform 1)
              risingState_velocity)
    as (s'' & t'' & Hs'' & _ & _ & _ & Hroles'' & Hu'' & _).
  assert (Hclamp : clamp 2 0 1 = 1) by (unfold clamp, Rmin, Rmax;
    destruct (Rle_dec 2 0); destruct (Rle_dec _ 1); lra).
  assert (Hmax : Rmax (-1) 0 = 0) by (apply Rmax_right; lra).
  exists (fluidUniforms wildSettings risingState (constant 0) (constant 1)).
  exists s', t', s'', t''.
  split; [ reflexivity | ].
  split; [ reflexivity | ].
  split; [ cbn [FluidShader.uViscosity fluidUniforms wildSettings viscosity];
           rewrite Hclamp; lra | ].
  split; [ reflexivity | ].
  split; [ cbn [FluidShader.uRadius fluidUniforms wildSettings scale];
           rewrite Hmax; lra | ].
  split; [ exact Hs' | ].
  split; [ apply Hroles' | ].
  split.
  { intros i j Hin; rewrite (Hu' i j Hin), uniformWave_eq.
    cbn [wildSettings viscosity decay]; lra. }
  split; [ exact Hs'' | ].
  split; [ apply Hroles'' | ].
  intros i j Hin; rewrite (Hu'' i j Hin), uniformWave_eq.
  cbn [clampedWildSettings viscosity decay]; rewrite Hclamp; lra.
Qed.

(** C6, amended: the frame neither clamps nor rejects a setting: each
    of the eight settings reaches its uniform unchanged, in the simulation
    and in the image materials, whatever its value, and whether the frame
    succeeds does not depend on the settings. *)
Theorem C6_settings_pass_through (settings : Settings) (s : State) :
  (forall u, frameUniforms settings s = Some u ->
     FluidShader.uViscosity u = viscosity settings /\
     FluidShader.uDecay u = decay settings /\
     FluidShader.uRadius u = scale settings /\
     FluidShader.uIntensity u = intensity settings) /\
  (forall viewport texture imageAspect displacement,
     let iu :=
       imageUniforms settings viewport texture imageAspect displacement in
     ImageShader.uDistortionStrength iu = distortionStrength settings /\
     ImageShader.uAberration iu = aberration settings /\
     ImageShader.uLightIntensity iu = lightIntensity settings /\
     ImageShader.uSpecularPower iu = specularPower settings) /\
  (forall settings',
     useFrame settings s = None <-> useFrame settings' s = None).
Proof.
  split; [ | split ].
  - intros u; unfold frameUniforms.
    destruct (rtGet _ (prevIndex _)); [ | discriminate ].
    destruct (rtGet _ (currentIndex _)); [ | discriminate ].
    intros [= <-]; repeat split.
  - intros; repeat split.
  - intros settings'; unfold useFrame, frameUniforms.
    destruct (negb (quadMeshRef s)); [ split; discriminate | ].
    destruct (rtGet _ (prevIndex _)); [ | tauto ].
    destruct (rtGet _ (currentIndex _)); [ split; discriminate | tauto ].
Qed.

Lemma C6_settings_pass_through_witness :
  FluidShader.uViscosity
    (fluidUniforms wildSettings risingState (constant 0) (constant 1)) = 2 /\
  FluidShader.uDecay
    (fluidUniforms wildSettings risingState (constant 0) (constant 1)) = 0.98 /\
  FluidShader.uRadius
    (fluidUniforms wildSettings risingState (constant 0) (constant 1)) = -1 /\
  FluidShader.uIntensity
    (fluidUniforms wildSettings risingState (constant 0) (constant 1)) = 0.06.
Proof.
  exact (proj1 (C6_settings_pass_through wildSettings risingState) _ eq_refl).
Defined.

(** ** The sample coordinates of the image shader *)

Lemma clamp_above (x lo hi : R) : hi <= x -> lo <= hi -> clamp x lo hi = hi.
Proof.
  intros H1 H2; unfold clamp, Rmin, Rmax.
  destruct (Rle_dec x lo); destruct (Rle_dec _ hi); lra.
Qed.

Lemma length3_raw_ge_1 (a b : R) : 1 <= length3 (Vec3 a b 1).
Proof.
  unfold length3; cbn [x3 y3 z3].
  apply Rle_trans with (sqrt 1); [ rewrite sqrt_1; lra | ].
  apply sqrt_le_1_alt; nra.
Qed.

(** The x and y components of a normalised [(a, b, 1)] sum, in absolute
    value, to at most the square root of 2. *)
Lemma normal_xy_bound (a b : R) :
  let n := normalize (Vec3 a b 1) in
  0 <= Rabs (x3 n) + Rabs (y3 n) <= sqrt 2.
Proof.
  cbv zeta; unfold normalize; cbn [x3 y3 z3].
  pose proof (length3_raw_ge_1 a b) as HL.
  assert (HLL : length3 (Vec3 a b 1) * length3 (Vec3 a b 1) = a * a + b * b + 1).
  { unfold length3; cbn [x3 y3 z3]; rewrite sqrt_sqrt; nra. }
  set (L := length3 (Vec3 a b 1)) in *.
  unfold Rdiv; rewrite !Rabs_mult, Rabs_inv, (Rabs_pos_eq L) by lra.
  assert (Ha : 0 <= Rabs a) by apply Rabs_pos.
  assert (Hb : 0 <= Rabs b) by apply Rabs_pos.
  assert (Haa : Rabs a * Rabs a = a * a)
    by (unfold Rabs; destruct (Rcase_abs a); ring).
  assert (Hbb : Rabs b * Rabs b = b * b)
    by (unfold Rabs; destruct (Rcase_abs b); ring).
  assert (Hinv : 0 < / L) by (apply Rinv_0_lt_compat; lra).
  assert (HinvL : / L * L = 1) by (field; lra).
  set (S := Rabs a * / L + Rabs b * / L).
  assert (HS0 : 0 <= S) by (unfold S; nra).
  split; [ exact HS0 | ].
  assert (HS2 : S * S <= 2).
  { replace (S * S)
      with ((Rabs a * Rabs a + Rabs b * Rabs b + 2 * (Rabs a * Rabs b))
            * (/ L * / L)) by (unfold S; ring).
    assert (Hsq : / L * / L * (a * a + b * b + 1) = 1)
      by (rewrite <- HLL; field; lra).
    pose proof (Rle_0_sqr (Rabs a - Rabs b)) as Hdiff; unfold Rsqr in Hdiff.
    assert (Hnum : Rabs a * Rabs a + Rabs b * Rabs b + 2 * (Rabs a * Rabs b)
                   <= 2 * (a * a + b * b + 1)) by nra.
    assert (Hpos : 0 < / L * / L) by nra.
    apply Rle_trans with (2 * (a * a + b * b + 1) * (/ L * / L));
      [ apply Rmult_le_compat_r; lra | ].
    replace (2 * (a * a + b * b + 1) * (/ L * / L))
      with (2 * (/ L * / L * (a * a + b * b + 1))) by ring.
    rewrite Hsq; lra. }
  rewrite <- (sqrt_square S) by exact HS0.
  now apply sqrt_le_1_alt.
Qed.

(** The central differences of [calculateNormal] at the centre of a
    cell, when the displacement is a render target. *)
Lemma rawNormal_cell (settings : Settings) (viewport : vec2)
    (texture : sampler2D) (imageAspect : R) (t : Texture) (i j : Z)
    (strength : R) :
  inGrid i j ->
  ImageShader.rawNormal
    (imageUniforms settings viewport texture imageAspect t)
    (cellCentre i j) strength
  = Vec3 ((heightAt t (clampIndex (i - 1)) j - heightAt t (clampIndex (i + 1)) j)
          * strength)
         ((heightAt t i (clampIndex (j - 1)) - heightAt t i (clampIndex (j + 1)))
          * strength)
         1.
Proof.
  intros [Hi Hj].
  unfold ImageShader.rawNormal, texture2D, heightAt.
  cbn [ImageShader.uDisplacement ImageShader.uResolution imageUniforms x2 y2].
  rewrite (linearSample_offset t i j (-1) 0) by (unfold RESOLUTION; lra).
  rewrite (linearSample_offset t i j 1 0) by (unfold RESOLUTION; lra).
  rewrite (linearSample_offset t i j 0 (-1)) by (unfold RESOLUTION; lra).
  rewrite (linearSample_offset t i j 0 1) by (unfold RESOLUTION; lra).
  rewrite !Z.add_0_r, !(clampIndex_id i), !(clampIndex_id j) by assumption.
  replace (i + -1)%Z with (i - 1)%Z by lia.
  replace (j + -1)%Z with (j - 1)%Z by lia.
  reflexivity.
Qed.

Lemma tilted_normal :
  ImageShader.normal tiltedUniforms edgeFragment = Vec3 0.6 0 0.8.
Proof.
  unfold ImageShader.normal, ImageShader.calculateNormal, tiltedUniforms,
    edgeFragment.
  rewrite rawNormal_cell by (unfold inGrid, RESOLUTION; lia).
  change (clampIndex (510 - 1)) with 509%Z.
  change (clampIndex (510 + 1)) with 511%Z.
  change (clampIndex (256 - 1)) with 255%Z.
  change (clampIndex (256 + 1)) with 257%Z.
  unfold heightAt, ramp; cbn [r4].
  replace ((-0.0075 * 509 - -0.0075 * 511) * 50) with 0.75 by lra.
  replace ((-0.0075 * 510 - -0.0075 * 510) * 50) with 0 by lra.
  assert (HL : length3 (Vec3 0.75 0 1) = 1.25).
  { unfold length3; cbn [x3 y3 z3].
    replace (0.75 * 0.75 + 0 * 0 + 1 * 1) with (1.25 * 1.25) by lra.
    apply sqrt_square; lra. }
  unfold normalize; cbn [x3 y3 z3]; rewrite HL.
  f_equal; lra.
Qed.

(** C5, as stated, fails: with the page's own settings (distortion
    strength 0.05, aberration 0.01), equal aspects and a displacement
    that falls by 0.0075 per cell, the fragment at the centre of cell
    (510, 256) takes its red sample at x = 1.005, beyond 0.999 and
    beyond the texture. *)
Lemma C5_counterexample :
  0 <= ImageShader.uDistortionStrength tiltedUniforms /\
  0 <= ImageShader.uAberration tiltedUniforms /\
  x2 (ImageShader.coordR tiltedUniforms edgeFragment edgeFragment) = 1.005 /\
  ~ (0.001
     <= x2 (ImageShader.coordR tiltedUniforms edgeFragment edgeFragment)
     <= 0.999).
Proof.
  assert (Hx : x2 (ImageShader.coordR tiltedUniforms edgeFragment edgeFragment)
               = 1.005).
  { unfold ImageShader.coordR, ImageShader.distortedUv,
      ImageShader.aberrationAmount, ImageShader.refraction,
      ImageShader.coveredUv.
    rewrite tilted_normal.
    cbn [ImageShader.uImageAspect ImageShader.uPlaneAspect
         ImageShader.uDistortionStrength ImageShader.uAberration
         tiltedUniforms imageUniforms demoSettings distortionStrength
         aberration x2 y2 x3 y3].
    replace (1 / 1) with 1 by lra.
    rewrite coverUv_same by lra.
    unfold edgeFragment, cellCentre, RESOLUTION, add2, clamp2, scale2, xy.
    cbn [x2 y2 x3 y3].
    rewrite clamp_above by lra.
    rewrite (Rabs_pos_eq 0.6), Rabs_R0 by lra.
    lra. }
  repeat split.
  - cbn; lra.
  - cbn; lra.
  - exact Hx.
  - rewrite Hx; lra.
Qed.

(** C5, amended: the refracted coordinate is clamped into
    [[0.001, 0.999]] in each component, and the green sample is taken
    there; the red and blue samples are offset along x after the clamp,
    by [aberrationAmount], which for a non-negative aberration lies
    between 0 and aberration times the square root of 2: their y
    components lie in [[0.001, 0.999]], the red x component in
    [[0.001, 0.999 + aberrationAmount]] and the blue x component in
    [[0.001 - aberrationAmount, 0.999]]. *)
Theorem C5_sample_coordinates (u : ImageShader.ImageUniforms)
    (vUv vScreenUv : vec2) :
  0 <= ImageShader.uAberration u ->
  let k := ImageShader.aberrationAmount u vScreenUv in
  let red := ImageShader.coordR u vUv vScreenUv in
  let green := ImageShader.coordG u vUv vScreenUv in
  let blue := ImageShader.coordB u vUv vScreenUv in
  0 <= k <= ImageShader.uAberration u * sqrt 2 /\
  (0.001 <= x2 green <= 0.999 /\ 0.001 <= y2 green <= 0.999) /\
  (0.001 <= x2 red <= 0.999 + k /\ 0.001 <= y2 red <= 0.999) /\
  (0.001 - k <= x2 blue <= 0.999 /\ 0.001 <= y2 blue <= 0.999).
Proof.
  intros Hab k red green blue.
  assert (Hk : 0 <= k <= ImageShader.uAberration u * sqrt 2).
  { unfold k, ImageShader.aberrationAmount, ImageShader.normal,
      ImageShader.calculateNormal, ImageShader.rawNormal.
    match goal with
    | |- context [normalize (Vec3 ?a ?b 1)] =>
        pose proof (normal_xy_bound a b) as Hn; cbv zeta in Hn
    end.
    split; [ apply Rmult_le_pos; lra | apply Rmult_le_compat_l; lra ]. }
  pose proof (clamp_bounds
                (x2 (add2 (ImageShader.coveredUv u vUv)
                          (ImageShader.refraction u vScreenUv)))
                0.001 0.999 ltac:(lra)) as Hx.
  pose proof (clamp_bounds
                (y2 (add2 (ImageShader.coveredUv u vUv)
                          (ImageShader.refraction u vScreenUv)))
                0.001 0.999 ltac:(lra)) as Hy.
  unfold red, green, blue, ImageShader.coordR, ImageShader.coordG,
    ImageShader.coordB, ImageShader.distortedUv, clamp2.
  fold k; cbn [add2 sub2 x2 y2] in *.
  repeat split; lra.
Qed.

Lemma C5_sample_coordinates_witness :
  0.001 <= x2 (ImageShader.coordG tiltedUniforms edgeFragment edgeFragment)
  <= 0.999 /\
  0.001 <= y2 (ImageShader.coordG tiltedUniforms edgeFragment edgeFragment)
  <= 0.999.
Proof.
  refine (proj1 (proj2 (C5_sample_coordinates tiltedUniforms edgeFragment
                          edgeFragment _))).
  cbn [ImageShader.uAberration tiltedUniforms imageUniforms demoSettings
       aberration]; lra.
Defined.

(** ** The composite over a flat displacement field *)

(** A uniform render target samples to its value at every coordinate. *)
Lemma linearSample_uniform (t : Texture) (v : R) (uv : vec2) :
  uniform t v -> r4 (linearSample t uv) = v.
Proof.
  intros Hu; unfold linearSample, mix4; cbn [r4].
  assert (H : forall i j, r4 (t (clampIndex i) (clampIndex j)) = v)
    by (intros i j; apply Hu; split; apply clampIndex_range).
  now rewrite !H, !mix_same.
Qed.

Lemma uniform_flatAt (settings : Settings) (viewport : vec2)
    (texture : sampler2D) (imageAspect : R) (t : Texture) (v : R) (uv : vec2) :
  uniform t v ->
  flatAt (imageUniforms settings viewport texture imageAspect t) uv.
Proof.
  intros Hu; unfold flatAt, texture2D.
  cbn [ImageShader.uDisplacement imageUniforms].
  now rewrite !(linearSample_uniform t v).
Qed.

Lemma normalize_up : normalize (Vec3 0 0 1) = Vec3 0 0 1.
Proof.
  assert (HL : length3 (Vec3 0 0 1) = 1).
  { unfold length3; cbn [x3 y3 z3].
    replace (0 * 0 + 0 * 0 + 1 * 1) with 1 by ring; apply sqrt_1. }
  unfold normalize; rewrite HL; cbn [x3 y3 z3]; f_equal; field.
Qed.

Lemma flat_normal (u : ImageShader.ImageUniforms) (uv : vec2) :
  flatAt u uv -> ImageShader.normal u uv = Vec3 0 0 1.
Proof.
  intros [Hx Hy].
  unfold ImageShader.normal, ImageShader.calculateNormal,
    ImageShader.rawNormal.
  cbv zeta in Hx, Hy; rewrite Hx, Hy.
  transitivity (normalize (Vec3 0 0 1)); [ | apply normalize_up ].
  f_equal; f_equal; ring.
Qed.

Lemma flat_rippleMask (u : ImageShader.ImageUniforms) (uv : vec2) :
  flatAt u uv -> ImageShader.rippleMask u uv = 0.
Proof.
  intros Hflat.
  unfold ImageShader.rippleMask, ImageShader.normalDeviation.
  rewrite flat_normal by exact Hflat.
  unfold length2, xy; cbn [x2 y2 x3 y3].
  replace (0 * 0 + 0 * 0) with 0 by ring; rewrite sqrt_0.
  unfold smoothstep; rewrite clamp_below; [ ring | | lra ].
  apply Rmult_le_reg_r with (0.1 - 0.01); [ lra | ].
  unfold Rdiv; rewrite Rmult_assoc, Rinv_l by lra; lra.
Qed.

Lemma pow_0 (y : R) : pow 0 y = 0.
Proof. unfold pow; destruct (Req_dec_T 0 0); [ reflexivity | congruence ]. Qed.

Lemma flat_distortedUv (u : ImageShader.ImageUniforms) (vUv vScreenUv : vec2) :
  flatAt u vScreenUv ->
  ImageShader.distortedUv u vUv vScreenUv
  = clamp2 (ImageShader.coveredUv u vUv) 0.001 0.999.
Proof.
  intros Hflat; unfold ImageShader.distortedUv, ImageShader.refraction.
  rewrite flat_normal by exact Hflat.
  unfold clamp2, add2, scale2, xy; cbn [x2 y2 x3 y3].
  now rewrite !Rmult_0_l, !Rplus_0_r.
Qed.

Lemma flat_aberrationAmount (u : ImageShader.ImageUniforms) (uv : vec2) :
  flatAt u uv -> ImageShader.aberrationAmount u uv = 0.
Proof.
  intros Hflat; unfold ImageShader.aberrationAmount.
  rewrite flat_normal by exact Hflat; cbn [x3 y3].
  rewrite Rabs_R0; ring.
Qed.

(** The colour of a flat fragment: the three channels of one sample, at
    the clamped cover-fit coordinate. *)
Lemma flat_main (u : ImageShader.ImageUniforms) (vUv vScreenUv : vec2) :
  flatAt u vScreenUv ->
  let c :=
    texture2D (ImageShader.uTexture u)
      (clamp2 (ImageShader.coveredUv u vUv) 0.001 0.999) in
  ImageShader.main u vUv vScreenUv = Vec4 (r4 c) (g4 c) (b4 c) 1.
Proof.
  intros Hflat c.
  unfold ImageShader.main, ImageShader.sampledColor, ImageShader.colorR,
    ImageShader.colorG, ImageShader.colorB, ImageShader.coordR,
    ImageShader.coordG, ImageShader.coordB, ImageShader.specular,
    ImageShader.fresnelTerm.
  rewrite flat_rippleMask, flat_aberrationAmount, flat_distortedUv
    by exact Hflat.
  unfold add3, splat3, add2, sub2, clamp2; cbn [x2 y2 x3 y3 z3].
  rewrite !Rplus_0_r, !Rminus_0_r.
  unfold c, clamp2; f_equal; ring.
Qed.

Lemma stillUniforms_flat (uv : vec2) : flatAt stillUniforms uv.
Proof. apply uniform_flatAt with (v := 0), cleared_uniform. Qed.

(** C7, as stated, fails in its last clause: over the uniformly zero
    displacement the fragment at (0.0005, 0.5) of an image whose red
    channel is the x coordinate is composited with red 0.001, the sample
    at the clamped coordinate, while the texture sample at the cover-fit
    UV has red 0.0005. *)
Lemma C7_counterexample :
  (forall uv, r4 (texture2D (ImageShader.uDisplacement stillUniforms) uv) = 0)
  /\
  ImageShader.coveredUv stillUniforms borderFragment = borderFragment /\
  r4 (ImageShader.main stillUniforms borderFragment borderFragment) = 0.001 /\
  r4 (texture2D (ImageShader.uTexture stillUniforms)
        (ImageShader.coveredUv stillUniforms borderFragment)) = 0.0005 /\
  r4 (ImageShader.main stillUniforms borderFragment borderFragment)
  <> r4 (texture2D (ImageShader.uTexture stillUniforms)
           (ImageShader.coveredUv stillUniforms borderFragment)).
Proof.
  assert (Hcov : ImageShader.coveredUv stillUniforms borderFragment
                 = borderFragment).
  { unfold ImageShader.coveredUv.
    cbn [ImageShader.uImageAspect ImageShader.uPlaneAspect stillUniforms
         imageUniforms x2 y2].
    replace (1 / 1) with 1 by lra.
    apply coverUv_same; lra. }
  assert (Hmain : r4 (ImageShader.main stillUniforms borderFragment
                        borderFragment) = 0.001).
  { rewrite flat_main by apply stillUniforms_flat.
    rewrite Hcov; unfold clamp2, borderFragment; cbn [x2 y2 r4].
    unfold texture2D; cbn [ImageShader.uTexture stillUniforms imageUniforms].
    unfold gradientImage; cbn [x2 r4].
    apply clamp_below; lra. }
  split; [ | split; [ exact Hcov | split; [ exact Hmain | ] ] ].
  - intros uv; unfold texture2D.
    cbn [ImageShader.uDisplacement stillUniforms imageUniforms].
    apply linearSample_uniform, cleared_uniform.
  - rewrite Hmain, Hcov; unfold texture2D.
    cbn [ImageShader.uTexture stillUniforms imageUniforms].
    unfold gradientImage, borderFragment; cbn [x2 r4]; split; lra.
Qed.

(** C7, amended: at a fragment where the displacement field is flat the
    normal is (0, 0, 1), [rippleMask] is 0, the specular and fresnel
    contributions are both 0, and the composited colour is the plain
    refracted sample, its three channels taken at one coordinate, the
    cover-fit UV clamped into [[0.001, 0.999]]; where the cover-fit UV
    lies in [[0.001, 0.999]] in both components this is the undistorted
    texture sample at the cover-fit UV. *)
Theorem C7_flat_field_composite (u : ImageShader.ImageUniforms)
    (vUv vScreenUv : vec2) :
  flatAt u vScreenUv ->
  let covered := ImageShader.coveredUv u vUv in
  let sampled := ImageShader.sampledColor u vUv vScreenUv in
  let clampedSample :=
    texture2D (ImageShader.uTexture u) (clamp2 covered 0.001 0.999) in
  let plainSample := texture2D (ImageShader.uTexture u) covered in
  ImageShader.normal u vScreenUv = Vec3 0 0 1 /\
  ImageShader.rippleMask u vScreenUv = 0 /\
  ImageShader.specular u vScreenUv = 0 /\
  ImageShader.fresnelTerm u vScreenUv = 0 /\
  ImageShader.main u vUv vScreenUv
  = Vec4 (x3 sampled) (y3 sampled) (z3 sampled) 1 /\
  ImageShader.main u vUv vScreenUv
  = Vec4 (r4 clampedSample) (g4 clampedSample) (b4 clampedSample) 1 /\
  (0.001 <= x2 covered <= 0.999 ->
   0.001 <= y2 covered <= 0.999 ->
   ImageShader.main u vUv vScreenUv
   = Vec4 (r4 plainSample) (g4 plainSample) (b4 plainSample) 1).
Proof.
  intros Hflat covered sampled clampedSample plainSample.
  pose proof (flat_rippleMask u vScreenUv Hflat) as Hmask.
  assert (Hspec : ImageShader.specular u vScreenUv = 0)
    by (unfold ImageShader.specular; rewrite Hmask; ring).
  assert (Hfres : ImageShader.fresnelTerm u vScreenUv = 0)
    by (unfold ImageShader.fresnelTerm; rewrite Hmask; ring).
  pose proof (flat_main u vUv vScreenUv Hflat) as Hmain; cbv zeta in Hmain.
  split; [ now apply flat_normal | ].
  split; [ exact Hmask | ].
  split; [ exact Hspec | ].
  split; [ exact Hfres | ].
  split; [ | split; [ exact Hmain | ] ].
  - unfold ImageShader.main; rewrite Hspec, Hfres.
    unfold add3, splat3, sampled; cbn [x3 y3 z3]; f_equal; ring.
  - intros Hx Hy; rewrite Hmain; unfold plainSample, clamp2.
    fold covered; rewrite !clamp_id by assumption.
    now destruct covered.
Qed.

Lemma C7_flat_field_composite_witness :
  ImageShader.normal stillUniforms edgeFragment = Vec3 0 0 1 /\
  ImageShader.rippleMask stillUniforms edgeFragment = 0.
Proof.
  destruct (C7_flat_field_composite stillUniforms edgeFragment edgeFragment
              (stillUniforms_flat edgeFragment)) as (Hn & Hm & _).
  exact (conj Hn Hm).
Defined.


(** * Further properties of the shaders and of the frame loop *)

(** ** Ranges of the built-ins *)

Lemma smoothstep_range (e0 e1 x : R) : 0 <= smoothstep e0 e1 x <= 1.
Proof.
  unfold smoothstep.
  pose proof (clamp_bounds ((x - e0) / (e1 - e0)) 0 1 ltac:(lra)) as Ht.
  set (t := clamp ((x - e0) / (e1 - e0)) 0 1) in *.
  assert (H0 : 0 <= t * t) by nra.
  assert (H1 : 0 <= (1 - t) * (1 - t) * (1 + 2 * t))
    by (apply Rmult_le_pos; [ apply Rle_0_sqr | lra ]).
  assert (H2 : 0 <= t * t * (3 - 2 * t))
    by (apply Rmult_le_pos; [ exact H0 | lra ]).
  split; [ exact H2 | ].
  replace (t * t * (3 - 2 * t))
    with (1 - (1 - t) * (1 - t) * (1 + 2 * t)) by ring.
  lra.
Qed.

(** The falling edge [smoothstep(r, 0, d)] of the ripple: 1 at distance
    0, 0 from distance [r] on. *)
Lemma smoothstep_down_far (r d : R) :
  0 < r -> r <= d -> smoothstep r 0 d = 0.
Proof.
  intros Hr Hd; unfold smoothstep.
  rewrite clamp_below; [ ring | | lra ].
  apply Rmult_le_reg_r with r; [ exact Hr | ].
  replace ((d - r) / (0 - r) * r) with (r - d) by (field; lra); lra.
Qed.

Lemma smoothstep_down_centre (r : R) : 0 < r -> smoothstep r 0 0 = 1.
Proof.
  intros Hr; unfold smoothstep.
  replace ((0 - r) / (0 - r)) with 1 by (field; lra).
  rewrite clamp_id by lra; ring.
Qed.

Lemma pow_nonneg (x y : R) : 0 <= pow x y.
Proof.
  unfold pow; destruct (Req_dec_T x 0); [ lra | ].
  unfold Rpower; left; apply exp_pos.
Qed.

Lemma pow_1 (y : R) : pow 1 y = 1.
Proof.
  unfold pow; destruct (Req_dec_T 1 0); [ lra | ].
  unfold Rpower; now rewrite ln_1, Rmult_0_r, exp_0.
Qed.

Lemma pow_range (x y : R) : 0 <= x <= 1 -> 0 <= y -> 0 <= pow x y <= 1.
Proof.
  intros Hx Hy; split; [ apply pow_nonneg | ].
  unfold pow; destruct (Req_dec_T x 0); [ lra | ].
  apply Rle_trans with (Rpower 1 y); [ apply Rle_Rpower_l; lra | ].
  unfold Rpower; rewrite ln_1, Rmult_0_r, exp_0; lra.
Qed.

Lemma pow_2 (x : R) : 0 <= x -> pow x 2 = x * x.
Proof.
  intros Hx; unfold pow; destruct (Req_dec_T x 0) as [-> | Hne]; [ ring | ].
  change 2 with (INR 2); rewrite Rpower_pow by lra; simpl; ring.
Qed.

Lemma distance_self (p : vec2) : distance p p = 0.
Proof.
  unfold distance, length2, sub2; cbn [x2 y2].
  replace (_ + _) with 0 by ring; apply sqrt_0.
Qed.

Lemma distance_nonneg (p q : vec2) : 0 <= distance p q.
Proof. apply sqrt_pos. Qed.

(** ** The trail loop as a running maximum *)

Lemma fold_Rmax_ge (f : R -> R) (l : list R) (r0 : R) :
  r0 <= fold_left (fun r i => Rmax r (f i)) l r0.
Proof.
  revert r0; induction l as [|i l IH]; intros r0; cbn [fold_left]; [ lra | ].
  apply Rle_trans with (Rmax r0 (f i)); [ apply Rbasic_fun.Rmax_l | apply IH ].
Qed.

Lemma fold_Rmax_le (f : R -> R) (l : list R) (r0 M : R) :
  r0 <= M -> (forall i, In i l -> f i <= M) ->
  fold_left (fun r i => Rmax r (f i)) l r0 <= M.
Proof.
  revert r0; induction l as [|i l IH]; intros r0 H0 Hf; cbn [fold_left];
    [ exact H0 | ].
  apply IH; [ apply Rmax_lub; [ exact H0 | apply Hf; now left ] | ].
  intros k Hk; apply Hf; now right.
Qed.

Lemma fold_Rmax_ge_elt (f : R -> R) (l : list R) (r0 i : R) :
  In i l -> f i <= fold_left (fun r k => Rmax r (f k)) l r0.
Proof.
  revert r0; induction l as [|k l IH]; intros r0 Hin; [ destruct Hin | ].
  cbn [fold_left]; destruct Hin as [-> | Hin]; [ | now apply IH ].
  apply Rle_trans with (Rmax r0 (f i));
    [ apply Rbasic_fun.Rmax_r | apply fold_Rmax_ge ].
Qed.

Lemma trailLoop_fold (u : FluidShader.FluidUniforms) (vUv : vec2) (r0 : R) :
  FluidShader.trailLoop u vUv r0
  = fold_left (fun r i => Rmax r (trailTerm u vUv i))
      [0; 1; 2; 3; 4; 5; 6; 7] r0.
Proof. reflexivity. Qed.

Lemma trailTerm_range (u : FluidShader.FluidUniforms) (vUv : vec2) (i : R) :
  0 <= trailTerm u vUv i <= 1.
Proof. apply pow_range; [ apply smoothstep_range | lra ]. Qed.

(** The combined ripple of [finalRipple], before it is scaled. *)
Lemma ripple_range (u : FluidShader.FluidUniforms) (vUv : vec2) :
  let ripple0 :=
    pow (smoothstep (FluidShader.uRadius u) 0
           (distance vUv (FluidShader.uMouse u))) 2 in
  0 <= FluidShader.trailLoop u vUv ripple0 <= 1.
Proof.
  intros ripple0.
  assert (H0 : 0 <= ripple0 <= 1)
    by (apply pow_range; [ apply smoothstep_range | lra ]).
  rewrite trailLoop_fold; split.
  - apply Rle_trans with ripple0; [ lra | apply fold_Rmax_ge ].
  - apply fold_Rmax_le; [ lra | intros i _; apply trailTerm_range ].
Qed.

(** ** Ripple injection *)



Lemma finalRipple_far (u : FluidShader.FluidUniforms) (vUv : vec2) :
  0 < FluidShader.uRadius u ->
  FluidShader.uRadius u <= distance vUv (FluidShader.uMouse u) ->
  (forall i, In i [0; 1; 2; 3; 4; 5; 6; 7] ->
     FluidShader.uRadius u * 0.7
     <= distance vUv
          (mix2 (FluidShader.uPrevMouse u) (FluidShader.uMouse u) (i / 8))) ->
  FluidShader.finalRipple u vUv = 0.
Proof.
  intros Hr Hm Ht; unfold FluidShader.finalRipple.
  rewrite smoothstep_down_far, pow_0 by assumption.
  assert (Hz : FluidShader.trailLoop u vUv 0 = 0).
  { apply Rle_antisym.
    - rewrite trailLoop_fold; apply fold_Rmax_le; [ lra | ].
      intros i Hi; unfold trailTerm.
      rewrite smoothstep_down_far, pow_0; [ lra | lra | now apply Ht ].
    - rewrite trailLoop_fold; apply fold_Rmax_ge. }
  rewrite Hz; ring.
Qed.

(** X2: a fragment at least one radius from the pointer and at least
    0.7 radius from each of the eight trail points receives no ripple:
    the injected term is 0 and the shader writes the wave update alone,
    whatever the velocity. *)
Theorem X2_no_ripple_off_the_path (u : FluidShader.FluidUniforms)
    (vUv : vec2) :
  0 < FluidShader.uRadius u ->
  FluidShader.uRadius u <= distance vUv (FluidShader.uMouse u) ->
  (forall i, In i [0; 1; 2; 3; 4; 5; 6; 7] ->
     FluidShader.uRadius u * 0.7
     <= distance vUv
          (mix2 (FluidShader.uPrevMouse u) (FluidShader.uMouse u) (i / 8))) ->
  FluidShader.finalRipple u vUv = 0 /\
  FluidShader.fluidWave u vUv = FluidShader.waveUpdate u vUv.
Proof.
  intros Hr Hm Ht.
  pose proof (finalRipple_far u vUv Hr Hm Ht) as Hz.
  split; [ exact Hz | ].
  unfold FluidShader.fluidWave; rewrite Hz.
  destruct (Rgt_dec _ _); ring.
Qed.

Lemma distance_ge_dy (p q : vec2) : Rabs (y2 p - y2 q) <= distance p q.
Proof.
  unfold distance, length2, sub2; cbn [x2 y2].
  rewrite <- sqrt_Rsqr_abs; apply sqrt_le_1_alt.
  pose proof (Rle_0_sqr (x2 p - x2 q)) as Hx; unfold Rsqr in *; lra.
Qed.

Lemma strokeState_far_cell :
  let u := fluidUniforms demoSettings strokeState cleared cleared in
  0 < FluidShader.uRadius u /\
  FluidShader.uRadius u <= distance (cellCentre 256 0) (FluidShader.uMouse u)
  /\
  (forall i, In i [0; 1; 2; 3; 4; 5; 6; 7] ->
     FluidShader.uRadius u * 0.7
     <= distance (cellCentre 256 0)
          (mix2 (FluidShader.uPrevMouse u) (FluidShader.uMouse u) (i / 8))).
Proof.
  cbv zeta.
  cbn [FluidShader.uRadius FluidShader.uMouse FluidShader.uPrevMouse
       fluidUniforms demoSettings scale strokeState mouseRef prevMouseRef].
  assert (Hfar : forall q, y2 q = (256 + 0.5) / IZR RESOLUTION ->
                           0.05 <= distance (cellCentre 256 0) q).
  { intros q Hq.
    apply Rle_trans with (Rabs (y2 (cellCentre 256 0) - y2 q));
      [ | apply distance_ge_dy ].
    rewrite Hq; unfold cellCentre, RESOLUTION; cbn [y2].
    unfold Rabs; destruct (Rcase_abs _); lra. }
  split; [ lra | split ].
  - apply Hfar; reflexivity.
  - intros i _.
    apply Rle_trans with 0.05; [ lra | ].
    apply Hfar; unfold mix2, cellCentre; cbn [x2 y2]; apply mix_same.
Qed.

Lemma X2_no_ripple_off_the_path_witness :
  FluidShader.finalRipple
    (fluidUniforms demoSettings strokeState cleared cleared)
    (cellCentre 256 0) = 0.
Proof.
  exact (proj1 (X2_no_ripple_off_the_path
                  (fluidUniforms demoSettings strokeState cleared cleared)
                  (cellCentre 256 0)
                  (proj1 strokeState_far_cell)
                  (proj1 (proj2 strokeState_far_cell))
                  (proj2 (proj2 strokeState_far_cell)))).
Defined.

Lemma trailLoop_from_one (u : FluidShader.FluidUniforms) (vUv : vec2) :
  FluidShader.trailLoop u vUv 1 = 1.
Proof.
  apply Rle_antisym.
  - rewrite trailLoop_fold; apply fold_Rmax_le; [ lra | ].
    intros i _; apply trailTerm_range.
  - rewrite trailLoop_fold; apply fold_Rmax_ge.
Qed.

Lemma finalRipple_at_mouse (u : FluidShader.FluidUniforms) :
  0 < FluidShader.uRadius u ->
  FluidShader.finalRipple u (FluidShader.uMouse u)
  = FluidShader.uIntensity u * Rmin (FluidShader.uMouseVelocity u * 10) 1.
Proof.
  intros Hr; unfold FluidShader.finalRipple.
  rewrite distance_self, smoothstep_down_centre, pow_1 by exact Hr.
  rewrite trailLoop_from_one; ring.
Qed.

Lemma trailTerm_at_prevMouse (u : FluidShader.FluidUniforms) :
  0 < FluidShader.uRadius u ->
  trailTerm u (FluidShader.uPrevMouse u) 0 = 1.
Proof.
  intros Hr; unfold trailTerm.
  assert (Hd : distance (FluidShader.uPrevMouse u)
                 (mix2 (FluidShader.uPrevMouse u) (FluidShader.uMouse u)
                    (0 / 8)) = 0).
  { unfold distance, length2, sub2, mix2, mix; cbn [x2 y2].
    replace (_ + _) with 0 by field; apply sqrt_0. }
  rewrite Hd, smoothstep_down_centre by lra; apply pow_1.
Qed.

Lemma finalRipple_at_prevMouse (u : FluidShader.FluidUniforms) :
  0 < FluidShader.uRadius u ->
  FluidShader.finalRipple u (FluidShader.uPrevMouse u)
  = FluidShader.uIntensity u * Rmin (FluidShader.uMouseVelocity u * 10) 1.
Proof.
  intros Hr; unfold FluidShader.finalRipple.
  pose proof (ripple_range u (FluidShader.uPrevMouse u)) as Hrange.
  cbv zeta in Hrange.
  set (r := FluidShader.trailLoop u _ _) in *.
  assert (H1 : 1 <= r).
  { unfold r; rewrite trailLoop_fold.
    rewrite <- (trailTerm_at_prevMouse u Hr) at 1.
    apply fold_Rmax_ge_elt; now left. }
  replace r with 1 by lra; ring.
Qed.

(** X3: for a positive radius the combined ripple is at full strength
    both at the pointer and at its previous position (the first trail
    point): the injected term there is the intensity times
    [min(velocity * 10, 1)], which is the intensity itself from a
    velocity of 0.1 on. *)
Theorem X3_full_ripple_at_pointer (u : FluidShader.FluidUniforms) :
  0 < FluidShader.uRadius u ->
  let scaled :=
    FluidShader.uIntensity u * Rmin (FluidShader.uMouseVelocity u * 10) 1 in
  FluidShader.finalRipple u (FluidShader.uMouse u) = scaled /\
  FluidShader.finalRipple u (FluidShader.uPrevMouse u) = scaled /\
  (0.1 <= FluidShader.uMouseVelocity u -> scaled = FluidShader.uIntensity u).
Proof.
  intros Hr scaled; split; [ | split ].
  - now apply finalRipple_at_mouse.
  - now apply finalRipple_at_prevMouse.
  - intros Hv; unfold scaled; rewrite Rmin_right by lra; ring.
Qed.

Lemma X3_full_ripple_at_pointer_witness :
  let u := fluidUniforms demoSettings strokeState cleared cleared in
  FluidShader.finalRipple u (FluidShader.uMouse u)
  = FluidShader.uIntensity u * Rmin (FluidShader.uMouseVelocity u * 10) 1.
Proof.
  refine (proj1 (X3_full_ripple_at_pointer
                   (fluidUniforms demoSettings strokeState cleared cleared)
                   _)).
  cbn [FluidShader.uRadius fluidUniforms demoSettings scale]; lra.
Defined.

(** ** The first ripple on a still surface *)







(** ** Frames without injection *)

(** A frame without injection writes [cellWave] to every cell. *)
Lemma useFrame_still (settings : Settings) (s : State) (p c : Texture) :
  quadMeshRef s = true ->
  roles s p c ->
  frameVelocity s <= 0.0001 ->
  exists s' nextTex,
    useFrame settings s = Some s' /\
    rtGet (renderTargets s') (nextIndex (pingPongRef s)) = Some nextTex /\
    forall i j, inGrid i j ->
      heightAt nextTex i j
      = cellWave (viscosity settings) (decay settings) p c i j.
Proof.
  intros Hq [Hp Hc] Hv.
  pose proof (rtGet_Some_range _ _ _ Hc) as Hr.
  eexists; eexists; split;
    [ now apply useFrame_mounted with (p := p) (c := c) | ].
  cbn [renderTargets]; split;
    [ apply rtGet_rtWrite_same, nextIndex_range, Hr | ].
  intros i j Hin; unfold heightAt at 1, render.
  rewrite fluidUpdate_still by exact Hv.
  cbn [r4]; now apply waveUpdate_cell.
Qed.

(** X5: with viscosity 0 a frame without injection only decays the
    field: every cell of the next buffer is the same cell of the current
    field times the decay, whatever its neighbours and the prev field
    hold. *)
Theorem X5_viscosity_zero_only_decays (settings : Settings) (s : State)
    (p c : Texture) :
  quadMeshRef s = true ->
  roles s p c ->
  frameVelocity s <= 0.0001 ->
  viscosity settings = 0 ->
  exists s' nextTex,
    useFrame settings s = Some s' /\
    rtGet (renderTargets s') (nextIndex (pingPongRef s)) = Some nextTex /\
    forall i j, inGrid i j ->
      heightAt nextTex i j = heightAt c i j * decay settings.
Proof.
  intros Hq Hroles Hv Hvisc.
  destruct (useFrame_still settings s p c Hq Hroles Hv)
    as (s' & nextTex & Hs' & Hget & Hcell).
  exists s', nextTex; split; [ exact Hs' | split; [ exact Hget | ] ].
  intros i j Hin; rewrite (Hcell i j Hin).
  unfold cellWave, dampedWave; rewrite Hvisc, mix_0; reflexivity.
Qed.

Lemma Rabs_between (x M : R) : Rabs x <= M -> - M <= x <= M.
Proof. unfold Rabs; destruct (Rcase_abs x); lra. Qed.

Lemma dampedWave_bound (visc dec M cur prev l r t b : R) :
  0 <= visc <= 1 -> 0 <= dec ->
  Rabs cur <= M -> Rabs prev <= M ->
  Rabs l <= M -> Rabs r <= M -> Rabs t <= M -> Rabs b <= M ->
  Rabs (dampedWave visc dec cur prev l r t b) <= (1 + 2 * visc) * dec * M.
Proof.
  intros Hv Hd Hc Hp Hl Hr Ht Hb.
  apply Rabs_between in Hc, Hp, Hl, Hr, Ht, Hb.
  unfold dampedWave, mix.
  set (W := 2 * (0.25 * (l + r + t + b)) - prev).
  assert (HW : - (3 * M) <= W <= 3 * M) by (unfold W; lra).
  assert (HM : 0 <= M) by lra.
  assert (HX : - ((1 + 2 * visc) * M) <= cur * (1 - visc) + W * visc
               <= (1 + 2 * visc) * M).
  { assert (0 <= (1 - visc) * (M - cur)) by (apply Rmult_le_pos; lra).
    assert (0 <= (1 - visc) * (M + cur)) by (apply Rmult_le_pos; lra).
    assert (0 <= visc * (3 * M - W)) by (apply Rmult_le_pos; lra).
    assert (0 <= visc * (3 * M + W)) by (apply Rmult_le_pos; lra).
    split; lra. }
  set (X := cur * (1 - visc) + W * visc) in *.
  apply Rabs_le.
  assert (0 <= dec * ((1 + 2 * visc) * M - X)) by (apply Rmult_le_pos; lra).
  assert (0 <= dec * ((1 + 2 * visc) * M + X)) by (apply Rmult_le_pos; lra).
  split; lra.
Qed.

(** X6: a frame without injection cannot magnify the field by more than
    [(1 + 2 * viscosity) * decay]: if every cell of the prev and current
    fields is within [M] of zero, with viscosity in [[0, 1]] and a
    non-negative decay, every cell of the next buffer is within
    [(1 + 2 * viscosity) * decay * M]. *)
Theorem X6_frame_amplitude_bound (settings : Settings) (s : State)
    (p c : Texture) (M : R) :
  quadMeshRef s = true ->
  roles s p c ->
  frameVelocity s <= 0.0001 ->
  0 <= viscosity settings <= 1 ->
  0 <= decay settings ->
  bounded p M -> bounded c M ->
  exists s' nextTex,
    useFrame settings s = Some s' /\
    rtGet (renderTargets s') (nextIndex (pingPongRef s)) = Some nextTex /\
    bounded nextTex ((1 + 2 * viscosity settings) * decay settings * M).
Proof.
  intros Hq Hroles Hv Hvisc Hdec Hp Hc.
  destruct (useFrame_still settings s p c Hq Hroles Hv)
    as (s' & nextTex & Hs' & Hget & Hcell).
  exists s', nextTex; split; [ exact Hs' | split; [ exact Hget | ] ].
  intros i j Hin; rewrite (Hcell i j Hin); destruct Hin as [Hi Hj].
  unfold cellWave.
  apply dampedWave_bound; try assumption;
    first [ apply Hp | apply Hc ]; split;
    first [ assumption | apply clampIndex_range ].
Qed.

Lemma cleared_bounded : bounded cleared 0.
Proof. intros i j _; unfold heightAt, cleared; cbn [r4]; rewrite Rabs_R0; lra. Qed.

Lemma constant_bounded (v : R) : 0 <= v -> bounded (constant v) v.
Proof.
  intros Hv i j _; unfold heightAt, constant; cbn [r4].
  rewrite Rabs_pos_eq; lra.
Qed.

Lemma X6_frame_amplitude_bound_witness :
  exists s' nextTex,
    useFrame demoSettings (uniformState 1) = Some s' /\
    rtGet (renderTargets s') 1%Z = Some nextTex /\
    bounded nextTex ((1 + 2 * 0.89) * 0.98 * 1).
Proof.
  refine (X6_frame_amplitude_bound demoSettings (uniformState 1)
            (constant 1) (constant 1) 1 eq_refl (uniformState_roles 1)
            (uniformState_velocity 1) _ _ (constant_bounded 1 _)
            (constant_bounded 1 _));
    cbn [demoSettings viscosity decay]; lra.
Defined.

Lemma X5_viscosity_zero_only_decays_witness :
  exists s' nextTex,
    useFrame
      {| intensity := 0.06; scale := 0.05; viscosity := 0; decay := 0.98;
         distortionStrength := 0.05; aberration := 0.01;
         lightIntensity := 0.04; specularPower := 8.1 |}
      risingState = Some s' /\
    rtGet (renderTargets s') 1%Z = Some nextTex /\
    forall i j, inGrid i j ->
      heightAt nextTex i j = heightAt (constant 1) i j * 0.98.
Proof.
  exact (X5_viscosity_zero_only_decays
           {| intensity := 0.06; scale := 0.05; viscosity := 0; decay := 0.98;
              distortionStrength := 0.05; aberration := 0.01;
              lightIntensity := 0.04; specularPower := 8.1 |}
           risingState (constant 0) (constant 1) eq_refl risingState_roles
           risingState_velocity eq_refl).
Defined.

(** ** The frame loop *)

(** X7: the three roles are on three different targets, and a frame
    writes only the one in the next role: the targets it reads, in the
    prev and current roles, hold after the frame what they held
    before. *)
Theorem X7_frame_writes_only_next (settings : Settings) (s : State) :
  quadMeshRef s = true ->
  (0 <= pingPongRef s < 3)%Z ->
  let c := pingPongRef s in
  (nextIndex c <> c /\ nextIndex c <> prevIndex c /\ prevIndex c <> c) /\
  exists s',
    useFrame settings s = Some s' /\
    rtGet (renderTargets s') (prevIndex c)
    = rtGet (renderTargets s) (prevIndex c) /\
    rtGet (renderTargets s') c = rtGet (renderTargets s) c.
Proof.
  intros Hq Hr c.
  destruct (rtGet_range (renderTargets s) _ (prevIndex_range _ Hr)) as [p Hp].
  destruct (rtGet_range (renderTargets s) _ Hr) as [t Ht].
  pose proof (useFrame_mounted settings s p t Hq Hp Ht) as Hs'.
  cbv zeta in Hs'; fold c in Hs', Hp, Ht.
  assert (Hc : (c = 0 \/ c = 1 \/ c = 2)%Z) by (unfold c; lia).
  split.
  - destruct Hc as [-> | [-> | ->]]; repeat split; discriminate.
  - eexists; split; [ exact Hs' | ].
    cbn [renderTargets]; generalize (render (FluidShader.fluidUpdateShader
                                               (fluidUniforms settings s p t))).
    intros w; destruct Hc as [-> | [-> | ->]]; split; reflexivity.
Qed.

Lemma X7_frame_writes_only_next_witness :
  exists s',
    useFrame demoSettings risingState = Some s' /\
    rtGet (renderTargets s') 2%Z = rtGet (renderTargets risingState) 2%Z /\
    rtGet (renderTargets s') 0%Z = rtGet (renderTargets risingState) 0%Z.
Proof.
  refine (proj2 (X7_frame_writes_only_next demoSettings risingState
                   eq_refl _)).
  cbn; lia.
Defined.

Lemma useFrame_unmounted (settings : Settings) (s : State) :
  quadMeshRef s = false -> useFrame settings s = Some s.
Proof. intros Hq; unfold useFrame; now rewrite Hq. Qed.

Lemma nextIndex_mod (c : Z) :
  (0 <= c < 3)%Z -> nextIndex c = ((c + 1) mod 3)%Z.
Proof.
  intros H.
  assert (c = 0 \/ c = 1 \/ c = 2)%Z as [-> | [-> | ->]] by lia; reflexivity.
Qed.

Lemma frames_index (settings : Settings) (n : nat) :
  forall s,
    quadMeshRef s = true ->
    (0 <= pingPongRef s < 3)%Z ->
    exists s',
      frames settings n s = Some s' /\
      quadMeshRef s' = true /\
      pingPongRef s' = ((pingPongRef s + Z.of_nat n) mod 3)%Z.
Proof.
  induction n as [|n IH]; intros s Hq Hr.
  - exists s; repeat split; [ exact Hq | ].
    cbn [Z.of_nat]; rewrite Z.add_0_r, Z.mod_small; lia.
  - destruct (useFrame_advance settings s Hq Hr) as (s1 & H1 & Hc1 & Hq1).
    assert (Hr1 : (0 <= pingPongRef s1 < 3)%Z)
      by (rewrite Hc1; now apply nextIndex_range).
    destruct (IH s1 Hq1 Hr1) as (s' & Hs' & Hq' & Hc').
    exists s'; split; [ cbn [frames]; now rewrite H1 | split; [ exact Hq' | ] ].
    rewrite Hc', Hc1, nextIndex_mod by exact Hr.
    rewrite Zplus_mod_idemp_l; f_equal; lia.
Qed.

(** X8: from an index in {0, 1, 2} no number of frames fails: after [n]
    frames of a component with its quad mesh the index is
    [(c + n) mod 3], so it stays in {0, 1, 2} and every texture lookup of
    the next frame succeeds. *)
Theorem X8_frames_never_fail (settings : Settings) (n : nat) (s : State) :
  quadMeshRef s = true ->
  (0 <= pingPongRef s < 3)%Z ->
  exists s',
    frames settings n s = Some s' /\
    pingPongRef s' = ((pingPongRef s + Z.of_nat n) mod 3)%Z /\
    (0 <= pingPongRef s' < 3)%Z /\
    exists u, frameUniforms settings s' = Some u.
Proof.
  intros Hq Hr.
  destruct (frames_index settings n s Hq Hr) as (s' & Hs' & Hq' & Hc').
  assert (Hr' : (0 <= pingPongRef s' < 3)%Z)
    by (rewrite Hc'; apply Z.mod_pos_bound; lia).
  exists s'; split; [ exact Hs' | split; [ exact Hc' | split; [ exact Hr' | ] ] ].
  destruct (rtGet_range (renderTargets s') _ (prevIndex_range _ Hr')) as [p Hp].
  destruct (rtGet_range (renderTargets s') _ Hr') as [c Hc].
  exists (fluidUniforms settings s' p c).
  unfold frameUniforms, currentIndex; now rewrite Hp, Hc.
Qed.

Lemma X8_frames_never_fail_witness :
  exists s',
    frames demoSettings 5 (mounted noTargets) = Some s' /\
    pingPongRef s' = ((0 + Z.of_nat 5) mod 3)%Z /\
    (0 <= pingPongRef s' < 3)%Z /\
    exists u, frameUniforms demoSettings s' = Some u.
Proof.
  exact (X8_frames_never_fail demoSettings 5 (mounted noTargets) eq_refl
           (mounted_index_range noTargets)).
Defined.

(** X9: while [quadMeshRef] holds no mesh the frame callback returns at
    once: no number of frames changes any ref or any render target, not
    even when the index is out of range. *)
Theorem X9_frames_before_mount (settings : Settings) (n : nat) (s : State) :
  quadMeshRef s = false ->
  frames settings n s = Some s.
Proof.
  intros Hq; induction n as [|n IH]; [ reflexivity | ].
  cbn [frames]; now rewrite useFrame_unmounted.
Qed.

Lemma X9_frames_before_mount_witness :
  frames demoSettings 3 (initialState noTargets) = Some (initialState noTargets).
Proof.
  exact (X9_frames_before_mount demoSettings 3 (initialState noTargets)
           eq_refl).
Defined.

(** X10: a frame leaves the pointer position and the inside flag as they
    were and stores the position as the previous one; so the frame after
    it, with no pointer event in between, samples the velocity 0 and
    injects nothing, also while the pointer is inside. *)
Theorem X10_second_frame_is_still (settings settings' : Settings)
    (s s' : State) :
  quadMeshRef s = true ->
  useFrame settings s = Some s' ->
  mouseRef s' = mouseRef s /\
  prevMouseRef s' = mouseRef s /\
  isPointerInsideRef s' = isPointerInsideRef s /\
  frameVelocity s' = 0 /\
  forall u vUv,
    frameUniforms settings' s' = Some u ->
    FluidShader.fluidWave u vUv = FluidShader.waveUpdate u vUv.
Proof.
  intros Hq; unfold useFrame; rewrite Hq; cbn [negb].
  destruct (frameUniforms settings s) as [u0|]; [ | discriminate ].
  intros [= <-]; cbn [mouseRef prevMouseRef isPointerInsideRef].
  match goal with
  | |- context [frameVelocity ?s1] =>
      assert (Hv : frameVelocity s1 = 0)
        by (apply frameVelocity_rest; reflexivity)
  end.
  repeat split; [ exact Hv | ].
  intros u vUv; unfold frameUniforms.
  destruct (rtGet _ (prevIndex _)); [ | discriminate ].
  destruct (rtGet _ (currentIndex _)); [ | discriminate ].
  intros [= <-]; apply fluidWave_still.
  cbn [FluidShader.uMouseVelocity fluidUniforms]; rewrite Hv; lra.
Qed.

(** Frames compose: [n + m] frames are [n] frames followed by [m]
    frames, and fail exactly when one of the two runs fails. *)
Lemma frames_compose (settings : Settings) (n m : nat) (s : State) :
  frames settings (n + m) s
  = match frames settings n s with
    | Some s' => frames settings m s'
    | None => None
    end.
Proof.
  revert s; induction n as [|n IH]; intros s; [ reflexivity | ].
  cbn [frames Nat.add].
  destruct (useFrame settings s) as [s1|]; [ apply IH | reflexivity ].
Qed.

Lemma X10_second_frame_is_still_witness :
  exists s',
    useFrame demoSettings strokeState = Some s' /\
    isPointerInsideRef s' = true /\
    frameVelocity s' = 0.
Proof.
  pose proof (useFrame_mounted demoSettings strokeState cleared cleared
                eq_refl eq_refl eq_refl) as H; cbv zeta in H.
  eexists; split; [ exact H | ].
  destruct (X10_second_frame_is_still demoSettings demoSettings strokeState
              _ eq_refl H) as (_ & _ & Hin & Hv & _).
  exact (conj Hin Hv).
Defined.

(** ** Pointer tracking *)

Lemma Rgeb_true (a b : R) : Rgeb a b = true <-> a >= b.
Proof. unfold Rgeb; destruct (Rge_dec a b); split; intros; try easy. Qed.

Lemma Rleb_true (a b : R) : Rleb a b = true <-> a <= b.
Proof. unfold Rleb; destruct (Rle_dec a b); split; intros; try easy. Qed.

Lemma inside_true (x y : R) :
  Rgeb x 0 && Rleb x 1 && Rgeb y 0 && Rleb y 1 = true
  <-> (0 <= x <= 1 /\ 0 <= y <= 1).
Proof.
  rewrite !andb_true_iff, !Rgeb_true, !Rleb_true; split; intros; lra.
Qed.

(** X12: a move event at the fraction [(a, b)] of a non-degenerate
    bounding rectangle, [b] counted from the top, is inside exactly when
    [a] and [b] are in [[0, 1]]; inside it sets the flag and stores the
    position [(a, 1 - b)], outside it clears the flag and keeps the stored
    position; the previous position is never touched. *)
Theorem X12_updatePointer_mapping (rect : Rect) (a b : R) (s : State) :
  width rect <> 0 -> height rect <> 0 ->
  let s' :=
    updatePointer rect (left rect + a * width rect)
      (top rect + b * height rect) s in
  prevMouseRef s' = prevMouseRef s /\
  (0 <= a <= 1 /\ 0 <= b <= 1 ->
   isPointerInsideRef s' = true /\ mouseRef s' = Vec2 a (1 - b)) /\
  (~ (0 <= a <= 1 /\ 0 <= b <= 1) ->
   isPointerInsideRef s' = false /\ mouseRef s' = mouseRef s).
Proof.
  intros Hw Hh s'; unfold s', updatePointer.
  cbn [prevMouseRef isPointerInsideRef mouseRef].
  replace ((left rect + a * width rect - left rect) / width rect)
    with a by (now field).
  replace (1 - (top rect + b * height rect - top rect) / height rect)
    with (1 - b) by (now field).
  split; [ reflexivity | split ].
  - intros Hab.
    assert (Hin : Rgeb a 0 && Rleb a 1 && Rgeb (1 - b) 0 && Rleb (1 - b) 1
                  = true) by (apply inside_true; lra).
    now rewrite Hin.
  - intros Hab.
    destruct (Rgeb a 0 && Rleb a 1 && Rgeb (1 - b) 0 && Rleb (1 - b) 1)
      eqn:Hin; [ | split; reflexivity ].
    apply inside_true in Hin; exfalso; apply Hab; lra.
Qed.

Lemma X12_updatePointer_mapping_witness :
  isPointerInsideRef
    (updatePointer canvasRect (0 + 0.25 * 800) (0 + 0.5 * 600)
       (mounted noTargets)) = true /\
  mouseRef
    (updatePointer canvasRect (0 + 0.25 * 800) (0 + 0.5 * 600)
       (mounted noTargets)) = Vec2 0.25 (1 - 0.5).
Proof.
  refine (proj1 (proj2 (X12_updatePointer_mapping canvasRect 0.25 0.5
                          (mounted noTargets) _ _)) _);
    cbn [canvasRect width height]; lra.
Defined.









(** X14: after the pointer leaves, the stored positions coincide and the
    frame velocity is 0; when a move event then brings the pointer back
    inside, the velocity of the next frame is the distance between the
    position of return and the position the pointer had when it left. *)
Theorem X14_leave_and_return (rect : Rect) (x y : R) (s : State) :
  let left := handlePointerLeave s in
  let back := updatePointer rect x y left in
  isPointerInsideRef left = false /\
  prevMouseRef left = mouseRef s /\
  frameVelocity left = 0 /\
  (isPointerInsideRef back = true ->
   frameVelocity back = distance (mouseRef back) (mouseRef s)).
Proof.
  cbv zeta.
  split; [ reflexivity | split; [ reflexivity | split ] ].
  - apply frameVelocity_outside; reflexivity.
  - intros Hin; unfold frameVelocity; rewrite Hin; reflexivity.
Qed.

Lemma strokeState_returns :
  isPointerInsideRef
    (updatePointer canvasRect 200 300 (handlePointerLeave strokeState)) = true.
Proof.
  unfold updatePointer; cbn [isPointerInsideRef canvasRect left top width height].
  apply inside_true; lra.
Qed.

Lemma X14_leave_and_return_witness :
  frameVelocity
    (updatePointer canvasRect 200 300 (handlePointerLeave strokeState))
  = distance
      (mouseRef
         (updatePointer canvasRect 200 300 (handlePointerLeave strokeState)))
      (mouseRef strokeState).
Proof.
  exact (proj2 (proj2 (proj2 (X14_leave_and_return canvasRect 200 300
                                strokeState))) strokeState_returns).
Defined.

(** ** Cover fit and the vertex shader *)

Lemma coverRatio_range (ia pa : R) :
  0 < ia -> 0 < pa ->
  0 < x2 (ImageShader.coverRatio ia pa) <= 1 /\
  0 < y2 (ImageShader.coverRatio ia pa) <= 1.
Proof.
  intros Hi Hp; unfold ImageShader.coverRatio; cbn [x2 y2].
  assert (0 < pa / ia) by (apply Rdiv_lt_0_compat; lra).
  assert (0 < ia / pa) by (apply Rdiv_lt_0_compat; lra).
  repeat split; try (apply Rmin_glb_lt; lra); apply Rbasic_fun.Rmin_r.
Qed.

(** X15: for positive aspects the cover fit keeps every coordinate of
    the unit square inside the unit square, and it keeps the centre
    (0.5, 0.5) where it is. *)
Theorem X15_coverUv_unit_square (uv : vec2) (ia pa : R) :
  0 < ia -> 0 < pa ->
  inUnitSquare uv ->
  inUnitSquare (ImageShader.coverUv uv ia pa) /\
  ImageShader.coverUv (Vec2 0.5 0.5) ia pa = Vec2 0.5 0.5.
Proof.
  intros Hi Hp [Hx Hy].
  destruct (coverRatio_range ia pa Hi Hp) as [Hrx Hry].
  unfold ImageShader.coverUv, inUnitSquare; cbn [x2 y2].
  set (rx := x2 (ImageShader.coverRatio ia pa)) in *.
  set (ry := y2 (ImageShader.coverRatio ia pa)) in *.
  split; [ | f_equal; lra ].
  assert (0 <= x2 uv * rx <= rx) by nra.
  assert (0 <= y2 uv * ry <= ry) by nra.
  repeat split; lra.
Qed.

Lemma X15_coverUv_unit_square_witness :
  inUnitSquare (ImageShader.coverUv (Vec2 0.25 1) 2 1).
Proof.
  refine (proj1 (X15_coverUv_unit_square (Vec2 0.25 1) 2 1 _ _ _));
    unfold inUnitSquare; cbn [x2 y2]; lra.
Defined.

(** X16: for positive aspects the cover fit crops one axis only: an
    image at least as wide as the plane keeps its full height and shows
    the fraction [planeAspect / imageAspect] of its width; an image at
    most as wide keeps its full width and shows [imageAspect /
    planeAspect] of its height. *)
Theorem X16_coverRatio_cases (ia pa : R) :
  0 < ia -> 0 < pa ->
  (pa <= ia -> ImageShader.coverRatio ia pa = Vec2 (pa / ia) 1) /\
  (ia <= pa -> ImageShader.coverRatio ia pa = Vec2 1 (ia / pa)).
Proof.
  intros Hi Hp; unfold ImageShader.coverRatio.
  assert (Hdiv : forall a b, 0 < a -> 0 < b -> a <= b ->
                             a / b <= 1 /\ 1 <= b / a).
  { intros a b Ha Hb Hab; split.
    - apply Rmult_le_reg_r with b; [ exact Hb | ].
      replace (a / b * b) with a by (field; lra); lra.
    - apply Rmult_le_reg_r with a; [ exact Ha | ].
      replace (b / a * a) with b by (field; lra); lra. }
  split; intros Hle.
  - destruct (Hdiv pa ia Hp Hi Hle) as [H1 H2].
    now rewrite Rmin_left, Rmin_right by assumption.
  - destruct (Hdiv ia pa Hi Hp Hle) as [H1 H2].
    now rewrite Rmin_right, Rmin_left by assumption.
Qed.

Lemma X16_coverRatio_cases_witness :
  ImageShader.coverRatio 2 1 = Vec2 (1 / 2) 1.
Proof.
  refine (proj1 (X16_coverRatio_cases 2 1 _ _) _); lra.
Defined.

(** X17: the vertex shader maps the point at the fraction [(a, b)] of a
    viewport-sized rectangle centred at the origin to the screen
    coordinate [(a, b)]; so world positions within the viewport get
    screen coordinates in the unit square. *)
Theorem X17_vScreenUv_of_viewport (a b w h : R) :
  w <> 0 -> h <> 0 ->
  vScreenUvOf (Vec2 ((a - 0.5) * w) ((b - 0.5) * h)) (Vec2 w h) = Vec2 a b.
Proof.
  intros Hw Hh; unfold vScreenUvOf; cbn [x2 y2].
  f_equal; decimals; now field.
Qed.

Lemma X17_vScreenUv_of_viewport_witness :
  vScreenUvOf (Vec2 ((0.25 - 0.5) * 16) ((0.75 - 0.5) * 9)) (Vec2 16 9)
  = Vec2 0.25 0.75.
Proof.
  apply (X17_vScreenUv_of_viewport 0.25 0.75 16 9); lra.
Defined.

(** ** The normal and the lighting terms *)

Lemma length3_sq (v : vec3) :
  length3 v * length3 v = x3 v * x3 v + y3 v * y3 v + z3 v * z3 v.
Proof. unfold length3; apply sqrt_sqrt; nra. Qed.

Lemma length3_pos_z (v : vec3) : 0 < z3 v -> 0 < length3 v.
Proof. intros Hz; unfold length3; apply sqrt_lt_R0; nra. Qed.

Lemma normalize_unit (v : vec3) :
  0 < length3 v -> length3 (normalize v) = 1.
Proof.
  intros HL; pose proof (length3_sq v) as Hsq.
  unfold length3 at 1, normalize; cbn [x3 y3 z3].
  set (L := length3 v) in *.
  replace (x3 v / L * (x3 v / L) + y3 v / L * (y3 v / L)
           + z3 v / L * (z3 v / L))
    with ((x3 v * x3 v + y3 v * y3 v + z3 v * z3 v) / (L * L))
    by (field; lra).
  rewrite <- Hsq; replace (L * L / (L * L)) with 1 by (field; lra).
  apply sqrt_1.
Qed.

Lemma dot_unit_le_1 (a b : vec3) :
  length3 a = 1 -> length3 b = 1 -> dot a b <= 1.
Proof.
  intros Ha Hb.
  pose proof (length3_sq a) as Sa; pose proof (length3_sq b) as Sb.
  rewrite Ha in Sa; rewrite Hb in Sb; unfold dot.
  pose proof (Rle_0_sqr (x3 a - x3 b)) as Hx.
  pose proof (Rle_0_sqr (y3 a - y3 b)) as Hy.
  pose proof (Rle_0_sqr (z3 a - z3 b)) as Hz.
  unfold Rsqr in *; lra.
Qed.

Lemma normal_unit (u : ImageShader.ImageUniforms) (uv : vec2) (k : R) :
  length3 (ImageShader.calculateNormal u uv k) = 1 /\
  0 < z3 (ImageShader.calculateNormal u uv k) <= 1.
Proof.
  unfold ImageShader.calculateNormal, ImageShader.rawNormal.
  match goal with
  | |- context [normalize (Vec3 ?a ?b 1)] =>
      pose proof (length3_raw_ge_1 a b) as HL;
      set (raw := Vec3 a b 1) in *
  end.
  split; [ apply normalize_unit; lra | ].
  unfold normalize; cbn [z3]; change (z3 raw) with 1.
  split.
  - apply Rdiv_lt_0_compat; lra.
  - apply Rmult_le_reg_r with (length3 raw); [ lra | ].
    replace (1 / length3 raw * length3 raw) with 1 by (field; lra); lra.
Qed.

(** X18: whatever the displacement field, the normal of
    [calculateNormal] is a unit vector that points towards the viewer:
    its length is 1, its z component lies in (0, 1], and the deviation
    [length(normal.xy)] the lighting mask reads lies in [[0, 1)] with
    [deviation^2 + z^2 = 1]. *)
Theorem X18_normal_is_unit (u : ImageShader.ImageUniforms) (uv : vec2) :
  let n := ImageShader.normal u uv in
  let dev := ImageShader.normalDeviation u uv in
  length3 n = 1 /\
  0 < z3 n <= 1 /\
  0 <= dev < 1 /\
  dev * dev + z3 n * z3 n = 1.
Proof.
  intros n dev.
  destruct (normal_unit u uv 50) as [HL Hz]; fold (ImageShader.normal u uv) in *.
  fold n in HL, Hz.
  pose proof (length3_sq n) as Hsq; rewrite HL in Hsq.
  assert (Hdev2 : dev * dev = x3 n * x3 n + y3 n * y3 n).
  { unfold dev, ImageShader.normalDeviation, length2, xy; cbn [x2 y2].
    fold n; apply sqrt_sqrt; nra. }
  assert (Hdev0 : 0 <= dev) by apply sqrt_pos.
  split; [ exact HL | split; [ exact Hz | split; [ | lra ] ] ].
  split; [ exact Hdev0 | ].
  assert (dev * dev < 1) by nra.
  nra.
Qed.

Lemma smoothstep_up_low (e0 e1 x : R) :
  e0 < e1 -> x <= e0 -> smoothstep e0 e1 x = 0.
Proof.
  intros He Hx; unfold smoothstep.
  rewrite clamp_below; [ ring | | lra ].
  apply Rmult_le_reg_r with (e1 - e0); [ lra | ].
  replace ((x - e0) / (e1 - e0) * (e1 - e0)) with (x - e0) by (field; lra).
  lra.
Qed.

Lemma smoothstep_up_high (e0 e1 x : R) :
  e0 < e1 -> e1 <= x -> smoothstep e0 e1 x = 1.
Proof.
  intros He Hx; unfold smoothstep.
  rewrite clamp_above; [ ring | | lra ].
  apply Rmult_le_reg_r with (e1 - e0); [ lra | ].
  replace ((x - e0) / (e1 - e0) * (e1 - e0)) with (x - e0) by (field; lra).
  lra.
Qed.

(** X19: the lighting mask lies in [[0, 1]]; it is exactly 0 where the
    deviation of the normal is at most 0.01 and exactly 1 where it is at
    least 0.1. *)
Theorem X19_rippleMask_thresholds (u : ImageShader.ImageUniforms)
    (uv : vec2) :
  0 <= ImageShader.rippleMask u uv <= 1 /\
  (ImageShader.normalDeviation u uv <= 0.01 ->
   ImageShader.rippleMask u uv = 0) /\
  (0.1 <= ImageShader.normalDeviation u uv ->
   ImageShader.rippleMask u uv = 1).
Proof.
  unfold ImageShader.rippleMask; split; [ apply smoothstep_range | split ].
  - intros H; apply smoothstep_up_low; lra.
  - intros H; apply smoothstep_up_high; lra.
Qed.

Lemma halfDir_unit : length3 ImageShader.halfDir = 1.
Proof.
  unfold ImageShader.halfDir; apply normalize_unit, length3_pos_z.
  unfold add3, ImageShader.viewDir, ImageShader.lightDir, normalize.
  cbn [z3].
  assert (0 < length3 (Vec3 0.5 0.5 1)) by (apply length3_pos_z; cbn; lra).
  assert (0 < 1 / length3 (Vec3 0.5 0.5 1))
    by (apply Rdiv_lt_0_compat; lra).
  lra.
Qed.

(** X20: with a non-negative light intensity and specular power the
    lighting only brightens, and by a bounded amount: the specular term
    lies in [[0, lightIntensity]], the fresnel contribution in
    [[0, 0.1 * lightIntensity]], and each colour channel of the output
    exceeds the sampled channel by at most [1.1 * lightIntensity]. *)
Theorem X20_lighting_bounds (u : ImageShader.ImageUniforms)
    (vUv vScreenUv : vec2) :
  0 <= ImageShader.uLightIntensity u ->
  0 <= ImageShader.uSpecularPower u ->
  let L := ImageShader.uLightIntensity u in
  let out := ImageShader.main u vUv vScreenUv in
  let sampled := ImageShader.sampledColor u vUv vScreenUv in
  0 <= ImageShader.specular u vScreenUv <= L /\
  0 <= ImageShader.fresnelTerm u vScreenUv <= 0.1 * L /\
  x3 sampled <= r4 out <= x3 sampled + 1.1 * L /\
  y3 sampled <= g4 out <= y3 sampled + 1.1 * L /\
  z3 sampled <= b4 out <= z3 sampled + 1.1 * L /\
  a4 out = 1.
Proof.
  intros HL Hp L out sampled; fold L in HL.
  destruct (normal_unit u vScreenUv 50) as [Hn Hz].
  fold (ImageShader.normal u vScreenUv) in Hn, Hz.
  pose proof (smoothstep_range 0.01 0.1
                (ImageShader.normalDeviation u vScreenUv)) as Hmask.
  fold (ImageShader.rippleMask u vScreenUv) in Hmask.
  assert (Hspec : 0 <= ImageShader.specular u vScreenUv <= L).
  { unfold ImageShader.specular.
    pose proof (dot_unit_le_1 _ _ Hn halfDir_unit) as Hdot.
    assert (Hbase : 0 <= Rmax (dot (ImageShader.normal u vScreenUv)
                                  ImageShader.halfDir) 0 <= 1)
      by (split; [ apply Rbasic_fun.Rmax_r | apply Rmax_lub; lra ]).
    pose proof (pow_range _ _ Hbase Hp) as Hpow.
    set (q := pow _ _) in *; set (m := ImageShader.rippleMask u vScreenUv) in *.
    fold L; assert (0 <= L * m <= L) by nra.
    split; nra. }
  assert (Hfres : 0 <= ImageShader.fresnelTerm u vScreenUv <= 0.1 * L).
  { unfold ImageShader.fresnelTerm, ImageShader.fresnel.
    assert (Hd : dot (ImageShader.normal u vScreenUv) ImageShader.viewDir
                 = z3 (ImageShader.normal u vScreenUv))
      by (unfold dot, ImageShader.viewDir; cbn [x3 y3 z3]; ring).
    rewrite Hd, Rmax_left by lra.
    assert (Hbase : 0 <= 1 - z3 (ImageShader.normal u vScreenUv) <= 1) by lra.
    pose proof (pow_range _ 2 Hbase ltac:(lra)) as Hpow.
    set (q := pow _ _) in *; set (m := ImageShader.rippleMask u vScreenUv) in *.
    fold L; assert (0 <= q * L <= L) by nra.
    assert (0 <= q * L * 0.1 <= 0.1 * L) by lra.
    split; nra. }
  split; [ exact Hspec | split; [ exact Hfres | ] ].
  unfold out, ImageShader.main, add3, splat3; cbn [x3 y3 z3 r4 g4 b4 a4].
  fold sampled; repeat split; lra.
Qed.

Lemma X20_lighting_bounds_witness :
  0 <= ImageShader.specular tiltedUniforms edgeFragment
  <= ImageShader.uLightIntensity tiltedUniforms.
Proof.
  refine (proj1 (X20_lighting_bounds tiltedUniforms edgeFragment
                   edgeFragment _ _));
    cbn [ImageShader.uLightIntensity ImageShader.uSpecularPower
         tiltedUniforms imageUniforms demoSettings lightIntensity
         specularPower]; lra.
Defined.

(** ** More on the buffers *)

Lemma uniformSeq_no_decay (visc v : R) (n : nat) :
  uniformSeq visc 1 v v n = (v, v).
Proof.
  induction n as [|n IH]; [ reflexivity | ].
  rewrite uniformSeq_S, IH; cbn [fst snd]; rewrite uniformWave_eq.
  f_equal; ring.
Qed.

(** X21: with decay 1 a level surface is a fixed point for every
    viscosity: from prev and current fields uniformly [v], any number of
    frames without injection leaves both fields uniformly [v]. *)
Theorem X21_level_surface_without_decay (settings : Settings) (n : nat)
    (s : State) (p c : Texture) (v : R) :
  quadMeshRef s = true ->
  roles s p c ->
  uniform p v -> uniform c v ->
  frameVelocity s <= 0.0001 ->
  decay settings = 1 ->
  exists s' p' c',
    frames settings n s = Some s' /\
    roles s' p' c' /\
    uniform p' v /\ uniform c' v.
Proof.
  intros Hq Hroles Hp Hc Hv Hd.
  destruct (frames_uniform settings n s p c v v Hq Hroles Hp Hc Hv)
    as (s' & p' & c' & Hs' & _ & Hroles' & _ & Hp' & Hc').
  rewrite Hd, uniformSeq_no_decay in Hp', Hc'.
  now exists s', p', c'.
Qed.

Lemma X21_level_surface_without_decay_witness :
  exists s' p' c',
    frames
      {| intensity := 0.06; scale := 0.05; viscosity := 0.89; decay := 1;
         distortionStrength := 0.05; aberration := 0.01;
         lightIntensity := 0.04; specularPower := 8.1 |}
      4 (uniformState 1) = Some s' /\
    roles s' p' c' /\
    uniform p' 1 /\ uniform c' 1.
Proof.
  exact (X21_level_surface_without_decay
           {| intensity := 0.06; scale := 0.05; viscosity := 0.89; decay := 1;
              distortionStrength := 0.05; aberration := 0.01;
              lightIntensity := 0.04; specularPower := 8.1 |}
           4 (uniformState 1) (constant 1) (constant 1) 1 eq_refl
           (uniformState_roles 1) (constant_uniform 1) (constant_uniform 1)
           (uniformState_velocity 1) eq_refl).
Defined.

(** X11: what the target in the next role held before a frame never
    reaches the result: two states that differ only in that target are
    taken to the same state by a frame. *)
Theorem X11_stale_buffer_never_read (settings : Settings) (s : State)
    (t1 t2 : Texture) :
  quadMeshRef s = true ->
  (0 <= pingPongRef s < 3)%Z ->
  let next := nextIndex (pingPongRef s) in
  useFrame settings (withTargets s (rtWrite (renderTargets s) next t1))
  = useFrame settings (withTargets s (rtWrite (renderTargets s) next t2)).
Proof.
  intros Hq Hr next; unfold next, useFrame, frameUniforms, currentIndex.
  cbn [quadMeshRef pingPongRef renderTargets withTargets].
  rewrite Hq; cbn [negb].
  destruct s as [m pm mv ins c rts q]; cbn [pingPongRef renderTargets] in *.
  assert (c = 0 \/ c = 1 \/ c = 2)%Z as [-> | [-> | ->]] by lia;
    reflexivity.
Qed.

Lemma X11_stale_buffer_never_read_witness :
  useFrame demoSettings
    (withTargets risingState
       (rtWrite (renderTargets risingState) 1 (constant 7)))
  = useFrame demoSettings
      (withTargets risingState
         (rtWrite (renderTargets risingState) 1 cleared)).
Proof.
  refine (X11_stale_buffer_never_read demoSettings risingState (constant 7)
            cleared eq_refl _).
  cbn; lia.
Defined.

Lemma stillUniforms_deviation :
  ImageShader.normalDeviation stillUniforms edgeFragment <= 0.01.
Proof.
  unfold ImageShader.normalDeviation.
  rewrite flat_normal by apply stillUniforms_flat.
  unfold length2, xy; cbn [x2 y2 x3 y3].
  replace (0 * 0 + 0 * 0) with 0 by ring; rewrite sqrt_0; lra.
Qed.

Lemma X19_rippleMask_thresholds_witness :
  ImageShader.rippleMask stillUniforms edgeFragment = 0.
Proof.
  exact (proj1 (proj2 (X19_rippleMask_thresholds stillUniforms edgeFragment))
           stillUniforms_deviation).
Defined.
